(** * WIP-limited task lifecycle engine

    A shallow embedding of the Cloud Functions of the task manager
    ([functions/src/index.ts]) together with the data model they import
    ([types.ts]), and the properties of the admission control, the daily
    triage and the stale-task archiver.

    Naming follows the source: the spec's Queued / Active / Done / Archived
    are the source's [BACKLOG] / [TODAY] / [DONE] / [ARCHIVE]. *)

From Stdlib Require Import List String Ascii ZArith NArith Bool Arith Lia.
From Stdlib Require Import Sorted Permutation.
Import ListNotations.

Local Open Scope string_scope.
Local Open Scope list_scope.

(* ------------------------------------------------------------------ *)
(** ** Data model ([types.ts]) *)

Inductive TaskStatus : Type := BACKLOG | TODAY | DONE | ARCHIVE.

Inductive Priority : Type := P1 | P2 | P3 | P4.

Definition status_eqb (a b : TaskStatus) : bool :=
  match a, b with
  | BACKLOG, BACKLOG | TODAY, TODAY | DONE, DONE | ARCHIVE, ARCHIVE => true
  | _, _ => false
  end.

Definition priority_eqb (a b : Priority) : bool :=
  match a, b with
  | P1, P1 | P2, P2 | P3, P3 | P4, P4 => true
  | _, _ => false
  end.

(** Dates are kept as milliseconds since the epoch, the value a JavaScript
    [Date] wraps.  Optional fields ([description?], [dueDate?],
    [completedOn?]) are options.

    The interface declares [id: string], "Firestore document ID", but a
    task is read with [doc.data() as Task], which yields the stored fields
    only, and no writer stores an [id] field ([createTask], [updateTask]
    and [updateTaskStatus] of the page, [set(beforeData)] of the trigger):
    on the documents of the application [task.id] is [undefined].  So
    [id] is an option too, [None] for the absent field. *)
Record Task : Type := mkTask {
  id : option string;
  projectId : string;
  owner : string;
  title : string;
  description : option string;
  priority : Priority;
  status : TaskStatus;
  createdOn : Z;
  dueDate : option Z;
  completedOn : option Z
}.

(** [p1MaxToday]: "Max P1 tasks allowed in Today status (3)";
    [p2MaxToday]: "Max P2 tasks allowed in Today status (5)". *)
Record WipLimits : Type := mkWipLimits {
  p1MaxToday : nat;
  p2MaxToday : nat
}.

Definition DEFAULT_WIP_LIMITS : WipLimits :=
  {| p1MaxToday := 3; p2MaxToday := 5 |}.

Definition STALE_TASK_DAYS : Z := 90.

(* ------------------------------------------------------------------ *)
(** ** The [tasks] collection

    A document is a reference (its path in the collection) and its data.
    The collection is the list of its documents; Firestore keeps one
    document per reference, which is [store_wf] below.  The order of the
    list is the order in which a query without [orderBy] returns them. *)

Record QueryDocumentSnapshot : Type := mkDoc {
  ref : string;
  data : Task
}.

Definition Store : Type := list QueryDocumentSnapshot.

Definition store_wf (db : Store) : Prop := NoDup (map ref db).

(** No task carries the reference of another document as its [id]: the
    [id] is absent, or names no document, or names the task's own
    document.  The documents the application writes have no [id]. *)
Definition ids_name_no_other (db : Store) : Prop :=
  Forall (fun d => forall r, id (data d) = Some r ->
                     In r (map ref db) -> r = ref d) db.

Fixpoint get (db : Store) (r : string) : option Task :=
  match db with
  | [] => None
  | d :: db' => if ref d =? r then Some (data d) else get db' r
  end.

Definition exists_doc (db : Store) (r : string) : bool :=
  existsb (fun d => ref d =? r) db.

(** The argument of [update]: the fields to overwrite.  The functions only
    ever pass [{status: ...}] or [{completedOn: ...}]. *)
Record UpdateData : Type := mkUpdate {
  upd_status : option TaskStatus;
  upd_completedOn : option Z
}.

Definition status_only (s : TaskStatus) : UpdateData :=
  {| upd_status := Some s; upd_completedOn := None |}.

Definition completedOn_only (t : Z) : UpdateData :=
  {| upd_status := None; upd_completedOn := Some t |}.

Definition merge (t : Task) (u : UpdateData) : Task :=
  {| id := id t;
     projectId := projectId t;
     owner := owner t;
     title := title t;
     description := description t;
     priority := priority t;
     status := match upd_status u with Some s => s | None => status t end;
     createdOn := createdOn t;
     dueDate := dueDate t;
     completedOn := match upd_completedOn u with
                    | Some c => Some c
                    | None => completedOn t
                    end |}.

Inductive WriteOp : Type :=
| Delete (r : string)
| SetDoc (r : string) (t : Task)
| Update (r : string) (u : UpdateData).

(** [ref.delete()]: succeeds whether or not the document exists. *)
Definition delete_doc (db : Store) (r : string) : Store :=
  filter (fun d => negb (ref d =? r)) db.

(** [ref.set(data)]: replaces the document, or creates it. *)
Definition set_doc (db : Store) (r : string) (t : Task) : Store :=
  if exists_doc db r
  then map (fun d => if ref d =? r then mkDoc r t else d) db
  else db ++ [mkDoc r t].

(** [ref.update(fields)]: overwrites the given fields; rejected when the
    document does not exist. *)
Definition update_doc (db : Store) (r : string) (u : UpdateData)
  : option Store :=
  if exists_doc db r
  then Some (map (fun d => if ref d =? r
                           then mkDoc (ref d) (merge (data d) u) else d) db)
  else None.

Definition apply_write (db : Store) (w : WriteOp) : option Store :=
  match w with
  | Delete r => Some (delete_doc db r)
  | SetDoc r t => Some (set_doc db r t)
  | Update r u => update_doc db r u
  end.

(** Writes awaited one after the other; a rejected write ends the run.
    A batch [commit] is the same on its list of updates: a batch over a
    missing document is rejected as a whole.  (A bound on the number of
    writes of one batch is not part of the model.) *)
Fixpoint run (db : Store) (ws : list WriteOp) : option Store :=
  match ws with
  | [] => Some db
  | w :: ws' =>
      match apply_write db w with
      | Some db' => run db' ws'
      | None => None
      end
  end.

Definition commit (db : Store) (batch : list WriteOp) : option Store :=
  run db batch.

(** [.where(...)] and [.orderBy("createdOn", "asc")]. *)
Definition where_ (p : Task -> bool) (docs : list QueryDocumentSnapshot)
  : list QueryDocumentSnapshot :=
  filter (fun d => p (data d)) docs.

Fixpoint insert_createdOn (d : QueryDocumentSnapshot)
  (l : list QueryDocumentSnapshot) : list QueryDocumentSnapshot :=
  match l with
  | [] => [d]
  | x :: l' =>
      if (createdOn (data d) <=? createdOn (data x))%Z
      then d :: l
      else x :: insert_createdOn d l'
  end.

(** Ascending on [createdOn]; documents with equal [createdOn] keep the
    order of the collection. *)
Fixpoint orderBy_createdOn (l : list QueryDocumentSnapshot)
  : list QueryDocumentSnapshot :=
  match l with
  | [] => []
  | d :: l' => insert_createdOn d (orderBy_createdOn l')
  end.

(* ------------------------------------------------------------------ *)
(** ** WIP limit enforcement *)

Section Engine.

Variable limits : WipLimits.

(** The documents counted by [checkWipLimits]: owner, [TODAY], priority. *)
Definition currentTasksQuery (db : Store) (userId : string)
  (p : Priority) : list QueryDocumentSnapshot :=
  where_ (fun t => priority_eqb (priority t) p)
    (where_ (fun t => status_eqb (status t) TODAY)
       (where_ (fun t => owner t =? userId) db)).

Definition limit_of (p : Priority) : nat :=
  if priority_eqb p P1 then p1MaxToday limits else p2MaxToday limits.

(** "Check if adding a task with the given priority would exceed WIP
    limits for the specified user": P3 and P4 have no limit; for P1 and
    P2 the answer is [(currentCount + 1) > limit]. *)
Definition checkWipLimits (db : Store) (userId : string) (p : Priority)
  : bool :=
  if negb (priority_eqb p P1) && negb (priority_eqb p P2)
  then false
  else
    let currentCount := List.length (currentTasksQuery db userId p) in
    let limit := limit_of p in
    (limit <? currentCount + 1)%nat.

(** The writes [enforceWipOnCreate] issues on [db], the collection as it
    is once the created document is in it. *)
Definition enforceWipOnCreate (db : Store)
  (snapshot : option QueryDocumentSnapshot) : list WriteOp :=
  match snapshot with
  | None => []
  | Some snap =>
      let newTask := data snap in
      if negb (status_eqb (status newTask) TODAY) then []
      else
        let wouldExceedLimits :=
          checkWipLimits db (owner newTask) (priority newTask) in
        if wouldExceedLimits then [Delete (ref snap)] else []
  end.

(** An update event: the reference and the data before and after. *)
Record Change : Type := mkChange {
  change_ref : string;
  before : Task;
  after : Task
}.

(** Lines 70-88: the admission check of an update. *)
Definition admissionOnUpdate (db : Store) (c : Change) : list WriteOp :=
  let beforeData := before c in
  let afterData := after c in
  let wasInToday := status_eqb (status beforeData) TODAY in
  let nowInToday := status_eqb (status afterData) TODAY in
  if negb wasInToday && nowInToday then
    let wouldExceedLimits :=
      checkWipLimits db (owner afterData) (priority afterData) in
    if wouldExceedLimits then [SetDoc (change_ref c) beforeData] else []
  else [].

(** Lines 90-96: the completion stamp. *)
Definition recordCompletion (now : Z) (c : Change) : list WriteOp :=
  if negb (status_eqb (status (before c)) DONE)
     && status_eqb (status (after c)) DONE
  then [Update (change_ref c) (completedOn_only now)]
  else [].

Definition enforceWipOnUpdate (db : Store) (now : Z)
  (event : option Change) : list WriteOp :=
  match event with
  | None => []
  | Some c => admissionOnUpdate db c ++ recordCompletion now c
  end.

(* ------------------------------------------------------------------ *)
(** ** Daily triage *)

(** Step 1: the unfinished [TODAY] tasks. *)
Definition todayTasksQuery (db : Store) : list QueryDocumentSnapshot :=
  where_ (fun t => negb (status_eqb (status t) DONE))
    (where_ (fun t => status_eqb (status t) TODAY) db).

Definition batch1 (db : Store) : list WriteOp :=
  map (fun doc => Update (ref doc) (status_only BACKLOG))
    (todayTasksQuery db).

(** Step 2: the backlog, oldest first. *)
Definition backlogTasksQuery (db : Store) : list QueryDocumentSnapshot :=
  orderBy_createdOn (where_ (fun t => status_eqb (status t) BACKLOG) db).

(** [tasksByUser] is a plain object: a lookup that finds no own property
    goes on to [Object.prototype], whose members these are. *)
Definition objectPrototypeMembers : list string :=
  ["constructor"; "__defineGetter__"; "__defineSetter__"; "hasOwnProperty";
   "__lookupGetter__"; "__lookupSetter__"; "isPrototypeOf";
   "propertyIsEnumerable"; "toString"; "valueOf"; "__proto__";
   "toLocaleString"].

Definition inherited (key : string) : bool :=
  existsb (String.eqb key) objectPrototypeMembers.

Definition hasOwn (tasksByUser : list (string * list Task)) (key : string)
  : bool :=
  existsb (fun entry => fst entry =? key) tasksByUser.

(** The own properties of [tasksByUser], in the order they were made:
    the owner's entry is made when there is none, and the task is pushed
    on it. *)
Fixpoint push (tasksByUser : list (string * list Task)) (task : Task)
  : list (string * list Task) :=
  match tasksByUser with
  | [] => [(owner task, [task])]
  | (userId, userTasks) :: rest =>
      if userId =? owner task
      then (userId, userTasks ++ [task]) :: rest
      else (userId, userTasks) :: push rest task
  end.

(** One turn of the grouping loop.  When the owner has no entry and is
    named like a member of [Object.prototype], [!tasksByUser[task.owner]]
    is false, no array is made, and [.push] on the inherited member
    throws a [TypeError]. *)
Definition groupTask (tasksByUser : list (string * list Task)) (task : Task)
  : option (list (string * list Task)) :=
  if negb (hasOwn tasksByUser (owner task)) && inherited (owner task)
  then None
  else Some (push tasksByUser task).

Fixpoint groupFrom (docs : list QueryDocumentSnapshot)
  (tasksByUser : list (string * list Task))
  : option (list (string * list Task)) :=
  match docs with
  | [] => Some tasksByUser
  | doc :: rest =>
      match groupTask tasksByUser (data doc) with
      | Some tasksByUser' => groupFrom rest tasksByUser'
      | None => None
      end
  end.

Definition groupByUser (docs : list QueryDocumentSnapshot)
  : option (list (string * list Task)) :=
  groupFrom docs [].

(** [Object.entries]: the keys that are array indices (canonical decimal
    strings below 2^32 - 1) come first, in ascending numeric order, then
    the other keys in the order they were made. *)
Definition digit (c : ascii) : option N :=
  let n := N_of_ascii c in
  if (48 <=? n)%N && (n <=? 57)%N then Some (n - 48)%N else None.

Fixpoint digits (s : string) (acc : N) : option N :=
  match s with
  | EmptyString => Some acc
  | String c s' =>
      match digit c with
      | Some v => digits s' (10 * acc + v)%N
      | None => None
      end
  end.

Definition arrayIndex (key : string) : option N :=
  match key with
  | EmptyString => None
  | String c rest =>
      if Ascii.eqb c "0" && negb (rest =? "") then None
      else
        match digits key 0 with
        | Some n => if (n <? 4294967295)%N then Some n else None
        | None => None
        end
  end.

Fixpoint insert_index (n : N) (entry : string * list Task)
  (l : list (N * (string * list Task))) : list (N * (string * list Task)) :=
  match l with
  | [] => [(n, entry)]
  | (m, x) :: l' =>
      if (n <=? m)%N then (n, entry) :: l else (m, x) :: insert_index n entry l'
  end.

Fixpoint indexed (tasksByUser : list (string * list Task))
  : list (N * (string * list Task)) :=
  match tasksByUser with
  | [] => []
  | entry :: rest =>
      match arrayIndex (fst entry) with
      | Some n => insert_index n entry (indexed rest)
      | None => indexed rest
      end
  end.

Definition entries (tasksByUser : list (string * list Task))
  : list (string * list Task) :=
  map snd (indexed tasksByUser)
  ++ filter (fun entry => match arrayIndex (fst entry) with
                          | Some _ => false
                          | None => true
                          end) tasksByUser.

(** Step 3, for one user: the tasks whose documents are promoted. *)
Definition toPromote (userTasks : list Task) : list Task :=
  let p1Tasks := filter (fun t => priority_eqb (priority t) P1) userTasks in
  let p2Tasks := filter (fun t => priority_eqb (priority t) P2) userTasks in
  let p1ToPromote := firstn (p1MaxToday limits) p1Tasks in
  let p2ToPromote := firstn (p2MaxToday limits) p2Tasks in
  p1ToPromote ++ p2ToPromote.

(** [db.collection("tasks").doc(task.id)]: the promotion addresses a
    document by the [id] field of the task data, not by the reference of
    the document it was read from.  The call throws unless its argument
    is a non-empty string.  (A path with a [/] in it leaves the
    collection: it names none of its documents, whose references hold no
    [/], and is here a path like any other that names none.) *)
Definition doc (documentPath : option string) : option string :=
  match documentPath with
  | Some path => if path =? "" then None else Some path
  | None => None
  end.

(** The updates of step 3 for the tasks picked; [None] when [doc] throws
    for one of them. *)
Fixpoint addUpdates (tasks : list Task) : option (list WriteOp) :=
  match tasks with
  | [] => Some []
  | task :: rest =>
      match doc (id task) with
      | None => None
      | Some taskRef =>
          option_map (cons (Update taskRef (status_only TODAY)))
            (addUpdates rest)
      end
  end.

(** Steps 2 and 3 up to the commit: the batch, or [None] when the
    grouping or the addressing throws. *)
Definition batch2 (db : Store) : option (list WriteOp) :=
  match groupByUser (backlogTasksQuery db) with
  | None => None
  | Some tasksByUser =>
      addUpdates
        (flat_map (fun entry => toPromote (snd entry)) (entries tasksByUser))
  end.

(** The whole job sits in a [try]: an exception or a rejected commit is
    logged and the job ends, leaving what was committed before. *)
Definition dailyTriage (db : Store) : Store :=
  match commit db (batch1 db) with
  | None => db
  | Some db1 =>
      match batch2 db1 with
      | None => db1
      | Some batch =>
          match commit db1 batch with
          | None => db1
          | Some db2 => db2
          end
      end
  end.

End Engine.

(* ------------------------------------------------------------------ *)
(** ** Archive of stale tasks *)

Definition ms_per_day : Z := 86400000.

(** [cutoffDate.setDate(cutoffDate.getDate() - STALE_TASK_DAYS)]; the
    functions run in UTC, where every day has [ms_per_day] milliseconds. *)
Definition cutoffDate (now : Z) : Z := (now - STALE_TASK_DAYS * ms_per_day)%Z.

Definition staleTasksQuery (now : Z) (db : Store)
  : list QueryDocumentSnapshot :=
  where_ (fun t => (createdOn t <? cutoffDate now)%Z)
    (where_ (fun t => status_eqb (status t) BACKLOG) db).

Definition archiveBatch (now : Z) (db : Store) : list WriteOp :=
  map (fun doc => Update (ref doc) (status_only ARCHIVE))
    (staleTasksQuery now db).

Definition archiveOldTasks (now : Z) (db : Store) : Store :=
  match staleTasksQuery now db with
  | [] => db
  | _ :: _ =>
      match commit db (archiveBatch now db) with
      | Some db' => db'
      | None => db
      end
  end.

(* ------------------------------------------------------------------ *)
(** ** Auxiliary definitions for the statements *)

(** A batch of updates that all write the status [st]. *)
Definition status_batch (st : TaskStatus) (refs : list string)
  : list WriteOp :=
  map (fun r => Update r (status_only st)) refs.

(** What such a batch does to one document. *)
Definition touch (refs : list string) (st : TaskStatus)
  (d : QueryDocumentSnapshot) : QueryDocumentSnapshot :=
  if existsb (String.eqb (ref d)) refs
  then mkDoc (ref d) (merge (data d) (status_only st))
  else d.

(** The count [checkWipLimits] compares with the limit. *)
Definition activeCount (db : Store) (userId : string) (p : Priority) : nat :=
  List.length (currentTasksQuery db userId p).

Definition counts (userId : string) (p : Priority) (t : Task) : bool :=
  (owner t =? userId) && status_eqb (status t) TODAY
  && priority_eqb (priority t) p.

Definition cap_ok (limits : WipLimits) (db : Store) (userId : string)
  (p : Priority) : Prop :=
  activeCount db userId p <= limit_of limits p.

(** The events the admission controller reacts to.  The client's write
    comes first ([addDoc] under a fresh reference, [updateDoc] of an
    existing document); the function then runs on the collection with
    the write in it. *)
Inductive TaskEvent : Type :=
| OnCreate (snap : QueryDocumentSnapshot)
| OnUpdate (c : Change).

Definition delivered (db : Store) (ev : TaskEvent) : Prop :=
  match ev with
  | OnCreate snap => get db (ref snap) = None
  | OnUpdate c => get db (change_ref c) = Some (before c)
  end.

Definition written (db : Store) (ev : TaskEvent) : Store :=
  match ev with
  | OnCreate snap => db ++ [snap]
  | OnUpdate c => set_doc db (change_ref c) (after c)
  end.

Definition handler (limits : WipLimits) (now : Z) (db : Store)
  (ev : TaskEvent) : list WriteOp :=
  match ev with
  | OnCreate snap => enforceWipOnCreate limits db (Some snap)
  | OnUpdate c => enforceWipOnUpdate limits db now (Some c)
  end.

Definition process (limits : WipLimits) (now : Z) (db : Store)
  (ev : TaskEvent) : option Store :=
  let db1 := written db ev in run db1 (handler limits now db1 ev).

Fixpoint process_all (limits : WipLimits) (now : Z) (db : Store)
  (evs : list TaskEvent) : option Store :=
  match evs with
  | [] => Some db
  | ev :: evs' =>
      match process limits now db ev with
      | Some db' => process_all limits now db' evs'
      | None => None
      end
  end.

(** An admission event: a creation in [TODAY], or an update into [TODAY]
    from another status. *)
Definition is_admission (ev : TaskEvent) : Prop :=
  match ev with
  | OnCreate snap => status (data snap) = TODAY
  | OnUpdate c => status (before c) <> TODAY /\ status (after c) = TODAY
  end.

Definition b2n (b : bool) : nat := if b then 1 else 0.

Definition replace_doc (r : string) (t : Task) (d : QueryDocumentSnapshot)
  : QueryDocumentSnapshot :=
  if ref d =? r then mkDoc r t else d.

(** Ascending [createdOn], as a relation on documents. *)
Definition older_eq (d x : QueryDocumentSnapshot) : Prop :=
  (createdOn (data d) <= createdOn (data x))%Z.

(** The spec's queue of an owner and a priority: the owner's [BACKLOG]
    tasks of that priority, oldest first. *)
Definition fifo_queue (db : Store) (userId : string) (p : Priority)
  : list QueryDocumentSnapshot :=
  orderBy_createdOn
    (where_ (fun t => status_eqb (status t) BACKLOG
                      && (owner t =? userId)
                      && priority_eqb (priority t) p) db).

(** The tasks the spec has promoted: the first [p1MaxToday] of the
    owner's P1 queue and the first [p2MaxToday] of the owner's P2 queue. *)
Definition fifo_promoted (limits : WipLimits) (db : Store)
  (d : QueryDocumentSnapshot) : Prop :=
  In d (firstn (p1MaxToday limits) (fifo_queue db (owner (data d)) P1))
  \/ In d (firstn (p2MaxToday limits) (fifo_queue db (owner (data d)) P2)).

(** Step 1 as the spec words it: every [TODAY] task goes to [BACKLOG]. *)
Definition demoteToday (db : Store) : Store :=
  map (fun d => if status_eqb (status (data d)) TODAY
                then mkDoc (ref d) (merge (data d) (status_only BACKLOG))
                else d) db.

(** The references a list of writes addresses. *)
Definition written_refs (ws : list WriteOp) : list string :=
  map (fun w => match w with
                | Delete r | SetDoc r _ | Update r _ => r
                end) ws.

(** The grouping without the exception: the entries [push] builds. *)
Definition groupsOf (tasks : list Task) : list (string * list Task) :=
  fold_left push tasks [].

(** The tasks step 3 picks (none when the grouping throws), and the [id]s
    they carry. *)
Definition promotedTasks (limits : WipLimits) (db : Store) : list Task :=
  match groupByUser (backlogTasksQuery db) with
  | Some tasksByUser =>
      flat_map (fun entry => toPromote limits (snd entry))
        (entries tasksByUser)
  | None => []
  end.

Definition promotedIds (limits : WipLimits) (db : Store) : list string :=
  flat_map (fun task => match id task with
                        | Some r => [r]
                        | None => []
                        end) (promotedTasks limits db).

(** Steps 2 and 3 run to their end on [db]: nothing throws and the batch
    is committed. *)
Definition promotes (limits : WipLimits) (db : Store) : bool :=
  match batch2 limits db with
  | Some batch => forallb (exists_doc db) (written_refs batch)
  | None => false
  end.

(** The references the committed promotion batch has written. *)
Definition promotedRefs (limits : WipLimits) (db : Store) : list string :=
  if promotes limits db then promotedIds limits db else [].

(** The tasks of a user in [tasksByUser]. *)
Fixpoint tasksOf (tasksByUser : list (string * list Task)) (userId : string)
  : list Task :=
  match tasksByUser with
  | [] => []
  | (k, ts) :: rest => if k =? userId then ts else tasksOf rest userId
  end.

(** All fields but [status] agree. *)
Definition same_but_status (t t' : Task) : Prop :=
  id t' = id t /\ owner t' = owner t /\ projectId t' = projectId t
  /\ title t' = title t /\ description t' = description t
  /\ priority t' = priority t /\ createdOn t' = createdOn t
  /\ dueDate t' = dueDate t /\ completedOn t' = completedOn t.

Definition is_status_update (w : WriteOp) : Prop :=
  exists r st, w = Update r (status_only st).

(** The archiver as the spec words it: every [BACKLOG] task created
    before the cutoff goes to [ARCHIVE]. *)
Definition archiveStale (now : Z) (db : Store) : Store :=
  map (fun d => if status_eqb (status (data d)) BACKLOG
                   && (createdOn (data d) <? cutoffDate now)%Z
                then mkDoc (ref d) (merge (data d) (status_only ARCHIVE))
                else d) db.


(** Same reference, same fields but [status]. *)
Definition status_changed_only (d d' : QueryDocumentSnapshot) : Prop :=
  ref d' = ref d /\ same_but_status (data d) (data d').

(* ------------------------------------------------------------------ *)
(** ** Further definitions: the events and the client of the triggers *)

(** The task and the reference an event is about. *)
Definition event_task (ev : TaskEvent) : Task :=
  match ev with
  | OnCreate snap => data snap
  | OnUpdate c => after c
  end.

Definition event_ref (ev : TaskEvent) : string :=
  match ev with
  | OnCreate snap => ref snap
  | OnUpdate c => change_ref c
  end.

(** The update event that a write of [enforceWipOnUpdate] on the document
    of [c] raises in turn: the data before it is the data after [c]. *)
Definition feedback (c : Change) (w : WriteOp) : Change :=
  match w with
  | SetDoc r t => mkChange r (after c) t
  | Update r u => mkChange r (after c) (merge (after c) u)
  | Delete _ => c
  end.

(** A run of admission events, each delivered on the collection the
    previous ones left. *)
Fixpoint admissions (limits : WipLimits) (now : Z) (db : Store)
  (evs : list TaskEvent) : Prop :=
  match evs with
  | [] => True
  | ev :: evs' =>
      delivered db ev /\ is_admission ev
      /\ forall db', process limits now db ev = Some db' ->
                     admissions limits now db' evs'
  end.

(** [updateTaskStatus] of the task manager page ([TaskManager.tsx]): the
    status, and the completion date when the status is [DONE]; a rejected
    [updateDoc] is caught and leaves the collection as it is. *)
Definition updateTaskStatus (db : Store) (now : Z) (taskId : string)
  (newStatus : TaskStatus) : Store :=
  let updates :=
    {| upd_status := Some newStatus;
       upd_completedOn := if status_eqb newStatus DONE
                          then Some now else None |} in
  match update_doc db taskId updates with
  | Some db' => db'
  | None => db
  end.

(** The comparator the page sorts the loaded tasks with: priority, then
    due date (tasks with a due date first), then creation date, newest
    first. *)
Definition priorityOrder (p : Priority) : Z :=
  match p with P1 => 0 | P2 => 1 | P3 => 2 | P4 => 3 end.

Definition compareTasks (a b : Task) : Z :=
  if negb (priority_eqb (priority a) (priority b))
  then priorityOrder (priority a) - priorityOrder (priority b)
  else
    match dueDate a, dueDate b with
    | Some _, None => -1
    | None, Some _ => 1
    | Some da, Some db => da - db
    | None, None => createdOn b - createdOn a
    end.

(* ------------------------------------------------------------------ *)
(** ** The scenarios of the documentation, run on the model *)

(** A document that carries its reference as [id], as the [Task]
    interface has it, and a document as the page writes it, with no [id]. *)
Definition task (i o : string) (p : Priority) (s : TaskStatus) (c : Z)
  : QueryDocumentSnapshot :=
  mkDoc i (mkTask (Some i) "proj" o i None p s c None None).

Definition pageTask (i o : string) (p : Priority) (s : TaskStatus) (c : Z)
  : QueryDocumentSnapshot :=
  mkDoc i (mkTask None "proj" o i None p s c None None).

Definition statuses (db : Store) : list (string * TaskStatus) :=
  map (fun d => (ref d, status (data d))) db.

Example triage_oldest_first :
  statuses (dailyTriage (mkWipLimits 1 5)
              [task "B" "u" P1 BACKLOG 20; task "A" "u" P1 BACKLOG 10])
  = [("B", BACKLOG); ("A", TODAY)].
Proof. reflexivity. Qed.

Example triage_four_tasks :
  let db := [task "d1" "u" P1 BACKLOG 1; task "d2" "u" P1 BACKLOG 2;
             task "d3" "u" P1 BACKLOG 3; task "d4" "u" P1 BACKLOG 4] in
  statuses (dailyTriage DEFAULT_WIP_LIMITS db)
  = [("d1", TODAY); ("d2", TODAY); ("d3", TODAY); ("d4", BACKLOG)]
  /\ dailyTriage DEFAULT_WIP_LIMITS (dailyTriage DEFAULT_WIP_LIMITS db)
     = dailyTriage DEFAULT_WIP_LIMITS db.
Proof. split; reflexivity. Qed.

(* ------------------------------------------------------------------ *)

(** ** Equality tests *)

Lemma status_eqb_eq (a b : TaskStatus) : status_eqb a b = true <-> a = b.
Proof. destruct a, b; simpl; split; congruence. Qed.

Lemma status_eqb_neq (a b : TaskStatus) : status_eqb a b = false <-> a <> b.
Proof. destruct a, b; simpl; split; congruence. Qed.

Lemma priority_eqb_eq (a b : Priority) : priority_eqb a b = true <-> a = b.
Proof. destruct a, b; simpl; split; congruence. Qed.

(* ------------------------------------------------------------------ *)
(** ** The collection *)

Lemma exists_doc_In (db : Store) (r : string) :
  exists_doc db r = true <-> In r (map ref db).
Proof.
  unfold exists_doc. rewrite existsb_exists, in_map_iff. split.
  - intros (d & Hd & E). apply String.eqb_eq in E. now exists d.
  - intros (d & E & Hd). exists d. split; [assumption|].
    now apply String.eqb_eq.
Qed.

Lemma exists_doc_ext (db db' : Store) (r : string) :
  map ref db' = map ref db -> exists_doc db' r = exists_doc db r.
Proof.
  intros E. apply eq_true_iff_eq. now rewrite !exists_doc_In, E.
Qed.

Lemma get_In (db : Store) (d : QueryDocumentSnapshot) :
  store_wf db -> In d db -> get db (ref d) = Some (data d).
Proof.
  unfold store_wf. induction db as [|x db IH]; simpl; [easy|].
  intros Hnd [->|Hin].
  - now rewrite String.eqb_refl.
  - inversion_clear Hnd as [|? ? Hx Hdb].
    destruct (ref x =? ref d) eqn:E; [|now apply IH].
    apply String.eqb_eq in E. exfalso. apply Hx. rewrite E.
    now apply in_map.
Qed.

Lemma get_None_notin (db : Store) (r : string) :
  get db r = None <-> ~ In r (map ref db).
Proof.
  induction db as [|x db IH]; simpl; [tauto|].
  destruct (ref x =? r) eqn:E.
  - apply String.eqb_eq in E. split; [discriminate|tauto].
  - apply String.eqb_neq in E. rewrite IH. tauto.
Qed.

Lemma same_ref_eq (db : Store) (d d' : QueryDocumentSnapshot) :
  store_wf db -> In d db -> In d' db -> ref d = ref d' -> d = d'.
Proof.
  intros Hwf Hd Hd' E.
  pose proof (get_In db d Hwf Hd) as G.
  pose proof (get_In db d' Hwf Hd') as G'.
  rewrite E, G' in G. destruct d, d'; simpl in *. congruence.
Qed.

Lemma get_map_ref (f : QueryDocumentSnapshot -> QueryDocumentSnapshot)
  (db : Store) (r : string) :
  (forall d, ref (f d) = ref d) ->
  get (map f db) r = option_map (fun t => data (f (mkDoc r t))) (get db r).
Proof.
  intros Hf. induction db as [|x db IH]; simpl; [reflexivity|].
  rewrite Hf. destruct (ref x =? r) eqn:E; [|exact IH].
  apply String.eqb_eq in E. subst r. simpl. now destruct x.
Qed.

(* ------------------------------------------------------------------ *)
(** ** Batches that write one status *)

Lemma ref_touch (refs : list string) (st : TaskStatus)
  (d : QueryDocumentSnapshot) : ref (touch refs st d) = ref d.
Proof. unfold touch. now destruct (existsb _ refs). Qed.

Lemma map_ref_touch (refs : list string) (st : TaskStatus) (db : Store) :
  map ref (map (touch refs st) db) = map ref db.
Proof.
  rewrite map_map. apply map_ext. intros d. apply ref_touch.
Qed.

Lemma touch_In (refs : list string) (st : TaskStatus)
  (d : QueryDocumentSnapshot) :
  In (ref d) refs ->
  touch refs st d = mkDoc (ref d) (merge (data d) (status_only st)).
Proof.
  intros H. unfold touch.
  replace (existsb (String.eqb (ref d)) refs) with true; [reflexivity|].
  symmetry. apply existsb_exists. exists (ref d). split; [assumption|].
  apply String.eqb_refl.
Qed.

Lemma touch_notin (refs : list string) (st : TaskStatus)
  (d : QueryDocumentSnapshot) :
  ~ In (ref d) refs -> touch refs st d = d.
Proof.
  intros H. unfold touch.
  destruct (existsb (String.eqb (ref d)) refs) eqn:E; [|reflexivity].
  apply existsb_exists in E. destruct E as (r & Hr & E).
  apply String.eqb_eq in E. subst r. contradiction.
Qed.

Lemma run_status_batch (st : TaskStatus) (refs : list string) (db : Store) :
  run db (status_batch st refs)
  = if forallb (exists_doc db) refs
    then Some (map (touch refs st) db) else None.
Proof.
  revert db. induction refs as [|r refs IH]; intros db; simpl.
  - f_equal. induction db as [|d db IHdb]; simpl; [reflexivity|].
    now rewrite <- IHdb.
  - unfold update_doc. destruct (exists_doc db r) eqn:Er; [|reflexivity].
    simpl. rewrite IH.
    set (upd := fun d => if ref d =? r
                         then mkDoc (ref d) (merge (data d) (status_only st))
                         else d).
    assert (Hrefs : map ref (map upd db) = map ref db).
    { rewrite map_map. apply map_ext. intros d. unfold upd.
      now destruct (ref d =? r). }
    replace (forallb (exists_doc (map upd db)) refs)
      with (forallb (exists_doc db) refs).
    2:{ clear IH. induction refs as [|r' refs IHr]; simpl; [reflexivity|].
        now rewrite IHr, (exists_doc_ext db (map upd db) r' Hrefs). }
    destruct (forallb (exists_doc db) refs); [|reflexivity].
    f_equal. rewrite map_map. apply map_ext. intros d.
    unfold upd, touch. simpl.
    destruct (ref d =? r); simpl; [|reflexivity].
    now destruct (existsb (String.eqb (ref d)) refs).
Qed.

(* ------------------------------------------------------------------ *)
(** ** Counting the tasks in [TODAY] *)

Lemma where_where (p q : Task -> bool) (l : list QueryDocumentSnapshot) :
  where_ p (where_ q l) = where_ (fun t => q t && p t) l.
Proof.
  unfold where_. induction l as [|d l IH]; simpl; [reflexivity|].
  destruct (q (data d)); simpl; [|exact IH].
  destruct (p (data d)); now rewrite IH.
Qed.

Lemma currentTasksQuery_counts (db : Store) (u : string) (p : Priority) :
  currentTasksQuery db u p = where_ (counts u p) db.
Proof.
  unfold currentTasksQuery. now rewrite (where_where _ _ db), where_where.
Qed.

Lemma activeCount_cons (d : QueryDocumentSnapshot) (db : Store)
  (u : string) (p : Priority) :
  activeCount (d :: db) u p = b2n (counts u p (data d)) + activeCount db u p.
Proof.
  unfold activeCount. rewrite !currentTasksQuery_counts. unfold where_.
  simpl. now destruct (counts u p (data d)).
Qed.

Lemma activeCount_app (db db' : Store) (u : string) (p : Priority) :
  activeCount (db ++ db') u p = activeCount db u p + activeCount db' u p.
Proof.
  induction db as [|d db IH]; simpl; [reflexivity|].
  rewrite !activeCount_cons, IH. lia.
Qed.

Lemma checkWipLimits_iff (limits : WipLimits) (db : Store) (u : string)
  (p : Priority) :
  checkWipLimits limits db u p = true
  <-> (p = P1 \/ p = P2) /\ limit_of limits p <= activeCount db u p.
Proof.
  unfold checkWipLimits. fold (activeCount db u p).
  destruct p; simpl; rewrite ?Nat.ltb_lt.
  - split; [intros H; split; [now left|lia] | intros [_ H]; lia].
  - split; [intros H; split; [now right|lia] | intros [_ H]; lia].
  - split; [discriminate | intros [[H|H] _]; discriminate].
  - split; [discriminate | intros [[H|H] _]; discriminate].
Qed.

Lemma checkWipLimits_unconstrained (limits : WipLimits) (db : Store)
  (u : string) (p : Priority) :
  p = P3 \/ p = P4 -> checkWipLimits limits db u p = false.
Proof. now intros [->| ->]. Qed.

(* ------------------------------------------------------------------ *)
(** ** [set] and [delete] on the collection *)

Lemma set_doc_unfold (db : Store) (r : string) (t : Task) :
  set_doc db r t
  = if exists_doc db r then map (replace_doc r t) db else db ++ [mkDoc r t].
Proof. reflexivity. Qed.

Lemma replace_doc_hit (r : string) (t : Task) (d : QueryDocumentSnapshot) :
  (ref d =? r) = true -> replace_doc r t d = mkDoc r t.
Proof. unfold replace_doc. now intros ->. Qed.

Lemma replace_doc_miss (r : string) (t : Task) (d : QueryDocumentSnapshot) :
  (ref d =? r) = false -> replace_doc r t d = d.
Proof. unfold replace_doc. now intros ->. Qed.

Lemma replace_absent (db : Store) (r : string) (t : Task) :
  ~ In r (map ref db) -> map (replace_doc r t) db = db.
Proof.
  induction db as [|x db IH]; simpl; [reflexivity|]. intros H.
  destruct (ref x =? r) eqn:E.
  - apply String.eqb_eq in E. tauto.
  - rewrite (replace_doc_miss _ _ _ E), IH; tauto.
Qed.

Lemma get_exists_doc (db : Store) (r : string) (t : Task) :
  get db r = Some t -> exists_doc db r = true.
Proof.
  intros H. apply exists_doc_In.
  destruct (in_dec string_dec r (map ref db)) as [|N]; [assumption|].
  apply get_None_notin in N. congruence.
Qed.

Lemma get_set_doc_same (db : Store) (r : string) (t : Task) :
  get (set_doc db r t) r = Some t.
Proof.
  rewrite set_doc_unfold. destruct (exists_doc db r) eqn:E.
  - apply exists_doc_In in E.
    induction db as [|x db IH]; [destruct E|]. cbn [map get].
    destruct (ref x =? r) eqn:Ex.
    + rewrite (replace_doc_hit _ _ _ Ex). cbn [ref data].
      now rewrite String.eqb_refl.
    + rewrite (replace_doc_miss _ _ _ Ex), Ex. apply IH.
      apply String.eqb_neq in Ex. destruct E; [contradiction|assumption].
  - assert (N : get db r = None).
    { apply get_None_notin. rewrite <- exists_doc_In. congruence. }
    clear E. induction db as [|x db IH]; cbn [app get ref data] in *.
    + now rewrite String.eqb_refl.
    + destruct (ref x =? r); [discriminate|]. now apply IH.
Qed.

Lemma get_set_doc_other (db : Store) (r r' : string) (t : Task) :
  r' <> r -> get (set_doc db r t) r' = get db r'.
Proof.
  intros N. rewrite set_doc_unfold.
  assert (Nb : (r =? r') = false) by (apply String.eqb_neq; congruence).
  destruct (exists_doc db r).
  - induction db as [|x db IH]; [reflexivity|]. cbn [map get].
    destruct (ref x =? r) eqn:Ex.
    + rewrite (replace_doc_hit _ _ _ Ex). cbn [ref data]. rewrite Nb.
      apply String.eqb_eq in Ex. subst r. now rewrite Nb.
    + rewrite (replace_doc_miss _ _ _ Ex). now rewrite IH.
  - induction db as [|x db IH]; cbn [app get ref data].
    + now rewrite Nb.
    + now rewrite IH.
Qed.

Lemma set_doc_revert (db : Store) (r : string) (a b : Task) :
  store_wf db -> get db r = Some b -> set_doc (set_doc db r a) r b = db.
Proof.
  intros Hwf G.
  assert (E : exists_doc (set_doc db r a) r = true)
    by (eapply get_exists_doc, get_set_doc_same).
  rewrite (set_doc_unfold (set_doc db r a)), E.
  rewrite set_doc_unfold, (get_exists_doc _ _ _ G).
  clear E. unfold store_wf in Hwf.
  induction db as [|x db IH]; [reflexivity|]. cbn [map get] in *.
  inversion_clear Hwf as [|? ? Hx Hdb].
  destruct (ref x =? r) eqn:Ex.
  - rewrite (replace_doc_hit _ _ _ Ex).
    rewrite (replace_doc_hit r b (mkDoc r a) (String.eqb_refl r)).
    injection G as <-. apply String.eqb_eq in Ex. subst r.
    rewrite (replace_absent db _ a Hx), (replace_absent db _ _ Hx).
    now destruct x.
  - rewrite (replace_doc_miss _ _ _ Ex), (replace_doc_miss _ _ _ Ex).
    f_equal. now apply IH.
Qed.

Lemma activeCount_set_doc (db : Store) (r : string) (a b : Task)
  (u : string) (p : Priority) :
  store_wf db -> get db r = Some b ->
  activeCount (set_doc db r a) u p + b2n (counts u p b)
  = activeCount db u p + b2n (counts u p a).
Proof.
  intros Hwf G. rewrite set_doc_unfold, (get_exists_doc _ _ _ G).
  unfold store_wf in Hwf.
  induction db as [|x db IH]; [discriminate|]. cbn [map get] in *.
  inversion_clear Hwf as [|? ? Hx Hdb].
  destruct (ref x =? r) eqn:Ex.
  - rewrite (replace_doc_hit _ _ _ Ex).
    injection G as <-. apply String.eqb_eq in Ex. subst r.
    rewrite (replace_absent db _ a Hx), !activeCount_cons. cbn [data]. lia.
  - rewrite (replace_doc_miss _ _ _ Ex), !activeCount_cons.
    specialize (IH Hdb G). lia.
Qed.

Lemma delete_doc_last (db : Store) (snap : QueryDocumentSnapshot) :
  get db (ref snap) = None -> delete_doc (db ++ [snap]) (ref snap) = db.
Proof.
  intros G. apply get_None_notin in G. unfold delete_doc.
  rewrite filter_app. simpl. rewrite String.eqb_refl. simpl.
  rewrite app_nil_r. induction db as [|x db IH]; simpl in *; [reflexivity|].
  destruct (ref x =? ref snap) eqn:E.
  - apply String.eqb_eq in E. tauto.
  - simpl. f_equal. apply IH. tauto.
Qed.

Lemma counts_true (u : string) (p : Priority) (t : Task) :
  counts u p t = true <-> owner t = u /\ status t = TODAY /\ priority t = p.
Proof.
  unfold counts. rewrite !andb_true_iff, String.eqb_eq, status_eqb_eq,
    priority_eqb_eq. tauto.
Qed.

Lemma counts_not_today (u : string) (p : Priority) (t : Task) :
  status t <> TODAY -> counts u p t = false.
Proof.
  intros H. destruct (counts u p t) eqn:E; [|reflexivity].
  apply counts_true in E. tauto.
Qed.

Lemma cap_after_accept (limits : WipLimits) (db db1 : Store) (t : Task)
  (u : string) (p : Priority) :
  (p = P1 \/ p = P2) ->
  activeCount db1 u p = activeCount db u p + b2n (counts u p t) ->
  checkWipLimits limits db1 (owner t) (priority t) = false ->
  cap_ok limits db u p -> cap_ok limits db1 u p.
Proof.
  unfold cap_ok. intros Hp E C Hcap. rewrite E.
  destruct (counts u p t) eqn:Ec; simpl; [|lia].
  apply counts_true in Ec. destruct Ec as (Eo & _ & Ep).
  rewrite Eo, Ep in C.
  assert (N : ~ limit_of limits p <= activeCount db1 u p).
  { intros H. assert (T : checkWipLimits limits db1 u p = true)
      by (apply checkWipLimits_iff; tauto). congruence. }
  lia.
Qed.

(* ------------------------------------------------------------------ *)
(** ** Admission control: the properties *)

Ltac solve_wf :=
  unfold store_wf; simpl;
  repeat (constructor; [simpl; intuition discriminate|]); constructor.

(** C1 (the code departs from the claim).  [checkWipLimits] answers
    "would exceed" as soon as the count of [TODAY] tasks, the written
    task included, reaches the limit: with the default limit of three P1
    tasks, the third P1 task created in [TODAY] is deleted, and an update
    that moves a third P1 task into [TODAY] is reverted, although the
    count then equals the limit and does not exceed it. *)
Theorem admission_rolls_back_at_limit :
  let t1 := task "t1" "u" P1 TODAY 1 in
  let t2 := task "t2" "u" P1 TODAY 2 in
  let t3 := task "t3" "u" P1 TODAY 3 in
  let q3 := task "t3" "u" P1 BACKLOG 3 in
  let db := [t1; t2; t3] in
  activeCount db "u" P1 = p1MaxToday DEFAULT_WIP_LIMITS
  /\ enforceWipOnCreate DEFAULT_WIP_LIMITS db (Some t3) = [Delete "t3"]
  /\ process DEFAULT_WIP_LIMITS 0 [t1; t2] (OnCreate t3) = Some [t1; t2]
  /\ enforceWipOnUpdate DEFAULT_WIP_LIMITS db 0
       (Some (mkChange "t3" (data q3) (data t3)))
     = [SetDoc "t3" (data q3)]
  /\ process DEFAULT_WIP_LIMITS 0 [t1; t2; q3]
       (OnUpdate (mkChange "t3" (data q3) (data t3)))
     = Some [t1; t2; q3].
Proof. repeat split. Qed.

(** The general form of the same fact: for P1 and P2 the check answers
    [true] exactly when the limit is at most the count. *)
Lemma checkWipLimits_at_limit (limits : WipLimits) (db : Store)
  (u : string) (p : Priority) :
  (p = P1 \/ p = P2) -> activeCount db u p = limit_of limits p ->
  checkWipLimits limits db u p = true.
Proof. intros Hp E. apply checkWipLimits_iff. split; [assumption|lia]. Qed.

(** C2, as stated, fails: a collection can hold more [TODAY] tasks of a
    priority than the limit without any concurrent write, since an edit
    of the priority of a task already in [TODAY] is not an admission.
    Four P3 tasks are created in [TODAY] and then edited to P1, every
    write followed by its function; a fifth P1 task created in [TODAY]
    is an admission event, it is deleted, and four P1 tasks remain in
    [TODAY] against a limit of three. *)
Lemma admission_cap_counterexample :
  let mk := fun i p => task i "u" p TODAY 1 in
  let edit := fun i => OnUpdate (mkChange i (data (mk i P3)) (data (mk i P1))) in
  let trace := [OnCreate (mk "a" P3); OnCreate (mk "b" P3);
                OnCreate (mk "c" P3); OnCreate (mk "d" P3);
                edit "a"; edit "b"; edit "c"; edit "d"] in
  let db := [mk "a" P1; mk "b" P1; mk "c" P1; mk "d" P1] in
  let ev := OnCreate (mk "e" P1) in
  process_all DEFAULT_WIP_LIMITS 0 [] trace = Some db
  /\ store_wf db /\ delivered db ev /\ is_admission ev
  /\ process DEFAULT_WIP_LIMITS 0 db ev = Some db
  /\ ~ cap_ok DEFAULT_WIP_LIMITS db "u" P1.
Proof.
  repeat split.
  - solve_wf.
  - unfold cap_ok. vm_compute. lia.
Qed.

(** C2 (amended): when the count of an owner's [TODAY] tasks of priority
    P1 or P2 is within the limit before the write, it is within the limit
    once the admission controller has processed the admission event; and
    for P3 and P4 the check never asks for a rollback. *)
Theorem admission_preserves_cap (limits : WipLimits) (now : Z) (db : Store)
  (ev : TaskEvent) (u : string) (p : Priority) :
  store_wf db -> delivered db ev -> is_admission ev ->
  (p = P1 \/ p = P2) -> cap_ok limits db u p ->
  (exists db', process limits now db ev = Some db' /\ cap_ok limits db' u p)
  /\ (forall db1 u' p', (p' = P3 \/ p' = P4) ->
        checkWipLimits limits db1 u' p' = false).
Proof.
  intros Hwf Hdel Hadm Hp Hcap. split;
    [|intros; now apply checkWipLimits_unconstrained].
  unfold process.
  destruct ev as [snap|c]; cbn [written handler delivered is_admission] in *.
  - unfold enforceWipOnCreate. rewrite Hadm. cbn [status_eqb negb].
    destruct (checkWipLimits limits (db ++ [snap]) (owner (data snap))
                (priority (data snap))) eqn:C; cbn [run apply_write].
    + rewrite (delete_doc_last db snap Hdel). now exists db.
    + exists (db ++ [snap]). split; [reflexivity|].
      apply (cap_after_accept limits db _ (data snap)); try assumption.
      rewrite activeCount_app. f_equal.
      rewrite activeCount_cons. unfold activeCount. simpl. lia.
  - destruct Hadm as [Hb Ha]. unfold enforceWipOnUpdate, recordCompletion.
    rewrite Ha. cbn [status_eqb andb]. rewrite andb_false_r, app_nil_r.
    unfold admissionOnUpdate. rewrite Ha.
    apply status_eqb_neq in Hb. rewrite Hb. cbn [status_eqb negb andb].
    apply status_eqb_neq in Hb.
    destruct (checkWipLimits limits (set_doc db (change_ref c) (after c))
                (owner (after c)) (priority (after c))) eqn:C;
      cbn [run apply_write].
    + rewrite (set_doc_revert db _ _ _ Hwf Hdel). now exists db.
    + eexists. split; [reflexivity|].
      apply (cap_after_accept limits db _ (after c)); try assumption.
      pose proof (activeCount_set_doc db _ (after c) _ u p Hwf Hdel) as E.
      rewrite (counts_not_today u p _ Hb) in E. simpl in E. lia.
Qed.

Lemma admission_preserves_cap_witness :
  let db := [task "t1" "u" P1 TODAY 1; task "t2" "u" P1 TODAY 2;
             task "t3" "u" P1 BACKLOG 3] in
  let ev := OnUpdate (mkChange "t3" (data (task "t3" "u" P1 BACKLOG 3))
                        (data (task "t3" "u" P1 TODAY 3))) in
  (store_wf db /\ delivered db ev /\ is_admission ev
   /\ cap_ok DEFAULT_WIP_LIMITS db "u" P1)
  /\ (exists db', process DEFAULT_WIP_LIMITS 0 db ev = Some db'
                  /\ cap_ok DEFAULT_WIP_LIMITS db' "u" P1)
  /\ (forall db1 u' p', (p' = P3 \/ p' = P4) ->
        checkWipLimits DEFAULT_WIP_LIMITS db1 u' p' = false).
Proof.
  assert (Hwf : store_wf [task "t1" "u" P1 TODAY 1; task "t2" "u" P1 TODAY 2;
                          task "t3" "u" P1 BACKLOG 3]) by solve_wf.
  assert (Hcap : cap_ok DEFAULT_WIP_LIMITS
                   [task "t1" "u" P1 TODAY 1; task "t2" "u" P1 TODAY 2;
                    task "t3" "u" P1 BACKLOG 3] "u" P1)
    by (unfold cap_ok; vm_compute; lia).
  split.
  - repeat split; try assumption. discriminate.
  - apply admission_preserves_cap.
    + exact Hwf.
    + reflexivity.
    + split; [discriminate|reflexivity].
    + now left.
    + exact Hcap.
Defined.

(** C3: when an update moves a task from [BACKLOG] to [TODAY] and the
    check answers that the limit is exceeded, the function runs to its end
    and the stored document is the data before the update, every field of
    it; no other document is touched. *)
Theorem revert_restores_before (limits : WipLimits) (now : Z) (db : Store)
  (c : Change) :
  status (before c) = BACKLOG -> status (after c) = TODAY ->
  checkWipLimits limits db (owner (after c)) (priority (after c)) = true ->
  exists db',
    run db (enforceWipOnUpdate limits db now (Some c)) = Some db'
    /\ get db' (change_ref c) = Some (before c)
    /\ forall r, r <> change_ref c -> get db' r = get db r.
Proof.
  intros Hb Ha C. unfold enforceWipOnUpdate, admissionOnUpdate,
    recordCompletion.
  rewrite Hb, Ha, C. cbn [status_eqb negb andb app run apply_write].
  eexists. split; [reflexivity|]. split.
  - apply get_set_doc_same.
  - intros r Hr. now apply get_set_doc_other.
Qed.

Lemma revert_restores_before_witness :
  let t1 := task "t1" "u" P1 TODAY 1 in
  let t2 := task "t2" "u" P1 TODAY 2 in
  let t3 := task "t3" "u" P1 TODAY 3 in
  let F := mkTask None "proj" "u" "write report" (Some "draft") P1 BACKLOG 4
             (Some 99%Z) None in
  let A := mkTask None "proj" "u" "write report!" None P1 TODAY 4
             None None in
  let db := [t1; t2; t3; mkDoc "t4" A] in
  let c := mkChange "t4" F A in
  (status (before c) = BACKLOG /\ status (after c) = TODAY
   /\ checkWipLimits DEFAULT_WIP_LIMITS db (owner (after c))
        (priority (after c)) = true)
  /\ exists db',
       run db (enforceWipOnUpdate DEFAULT_WIP_LIMITS db 0 (Some c)) = Some db'
       /\ get db' (change_ref c) = Some (before c)
       /\ forall r, r <> change_ref c -> get db' r = get db r.
Proof.
  split.
  - repeat split.
  - apply revert_restores_before; reflexivity.
Defined.

(** C7: on an update from a status other than [DONE] to [DONE], with the
    updated document in the collection, the function runs to its end and
    the stored task has [completedOn] set to the current time; on an
    update between two statuses other than [DONE], the completion step
    issues no write and the function issues no [update] at all, so
    [completedOn] is not written. *)
Theorem completion_stamp (limits : WipLimits) (now : Z) (db : Store)
  (c : Change) :
  status (before c) <> DONE ->
  (status (after c) = DONE ->
   get db (change_ref c) = Some (after c) ->
     exists db' t,
       run db (enforceWipOnUpdate limits db now (Some c)) = Some db'
       /\ get db' (change_ref c) = Some t
       /\ completedOn t = Some now
       /\ t = merge (after c) (completedOn_only now))
  /\ (status (after c) <> DONE ->
        recordCompletion now c = []
        /\ forall w, In w (enforceWipOnUpdate limits db now (Some c)) ->
             forall r u, w <> Update r u).
Proof.
  intros Hb. apply status_eqb_neq in Hb. split.
  - intros Ha G. unfold enforceWipOnUpdate, admissionOnUpdate,
      recordCompletion.
    rewrite Ha, Hb. cbn [status_eqb negb andb app run apply_write].
    rewrite andb_false_r. cbn [app run apply_write].
    unfold update_doc. rewrite (get_exists_doc _ _ _ G).
    eexists. eexists. split; [reflexivity|].
    rewrite (get_map_ref
               (fun d => if ref d =? change_ref c
                         then mkDoc (ref d)
                                (merge (data d) (completedOn_only now))
                         else d)).
    2:{ intros d. now destruct (ref d =? change_ref c). }
    rewrite G. cbn [option_map ref data]. rewrite String.eqb_refl.
    cbn [data]. repeat split.
  - intros Ha. apply status_eqb_neq in Ha.
    assert (E : recordCompletion now c = []).
    { unfold recordCompletion. now rewrite Ha, andb_false_r. }
    split; [exact E|].
    unfold enforceWipOnUpdate. rewrite E, app_nil_r.
    unfold admissionOnUpdate. intros w Hw r u ->.
    destruct (negb (status_eqb (status (before c)) TODAY)
              && status_eqb (status (after c)) TODAY); [|destruct Hw].
    destruct (checkWipLimits limits db (owner (after c))
                (priority (after c))); [|destruct Hw].
    destruct Hw as [Hw|[]]. discriminate.
Qed.

Lemma completion_stamp_witness :
  let A := data (task "t1" "u" P2 DONE 5) in
  let B := data (task "t1" "u" P2 TODAY 5) in
  let Q := data (task "t1" "u" P2 BACKLOG 5) in
  let db := [mkDoc "t1" A; task "t2" "u" P1 TODAY 2] in
  let db2 := [mkDoc "t1" Q; task "t2" "u" P1 TODAY 2] in
  (exists db' t,
     run db (enforceWipOnUpdate DEFAULT_WIP_LIMITS db 1700
               (Some (mkChange "t1" B A))) = Some db'
     /\ get db' "t1" = Some t
     /\ completedOn t = Some 1700%Z
     /\ t = merge A (completedOn_only 1700))
  /\ (recordCompletion 1700 (mkChange "t1" B Q) = []
      /\ forall w,
           In w (enforceWipOnUpdate DEFAULT_WIP_LIMITS db2 1700
                   (Some (mkChange "t1" B Q))) ->
           forall r u, w <> Update r u).
Proof.
  split.
  - apply (completion_stamp DEFAULT_WIP_LIMITS 1700
             [mkDoc "t1" (data (task "t1" "u" P2 DONE 5));
              task "t2" "u" P1 TODAY 2]
             (mkChange "t1" (data (task "t1" "u" P2 TODAY 5))
                (data (task "t1" "u" P2 DONE 5))));
      [discriminate|reflexivity|reflexivity].
  - apply (completion_stamp DEFAULT_WIP_LIMITS 1700
             [mkDoc "t1" (data (task "t1" "u" P2 BACKLOG 5));
              task "t2" "u" P1 TODAY 2]
             (mkChange "t1" (data (task "t1" "u" P2 TODAY 5))
                (data (task "t1" "u" P2 BACKLOG 5))));
      [discriminate|discriminate].
Defined.

(* ------------------------------------------------------------------ *)
(** ** [orderBy]: a stable sort that commutes with [where] *)

Lemma insert_createdOn_In (d x : QueryDocumentSnapshot)
  (l : list QueryDocumentSnapshot) :
  In x (insert_createdOn d l) <-> x = d \/ In x l.
Proof.
  induction l as [|y l IH]; simpl.
  - intuition congruence.
  - destruct (createdOn (data d) <=? createdOn (data y))%Z; simpl.
    + intuition congruence.
    + rewrite IH. intuition congruence.
Qed.

Lemma orderBy_createdOn_In (x : QueryDocumentSnapshot)
  (l : list QueryDocumentSnapshot) :
  In x (orderBy_createdOn l) <-> In x l.
Proof.
  induction l as [|d l IH]; simpl; [tauto|].
  rewrite insert_createdOn_In, IH. intuition congruence.
Qed.

Lemma insert_createdOn_perm (d : QueryDocumentSnapshot)
  (l : list QueryDocumentSnapshot) :
  Permutation (d :: l) (insert_createdOn d l).
Proof.
  induction l as [|y l IH]; simpl; [reflexivity|].
  destruct (createdOn (data d) <=? createdOn (data y))%Z; [reflexivity|].
  rewrite perm_swap. now apply perm_skip.
Qed.

Lemma orderBy_createdOn_perm (l : list QueryDocumentSnapshot) :
  Permutation l (orderBy_createdOn l).
Proof.
  induction l as [|d l IH]; simpl; [reflexivity|].
  rewrite <- insert_createdOn_perm. now apply perm_skip.
Qed.

Lemma insert_createdOn_sorted (d : QueryDocumentSnapshot)
  (l : list QueryDocumentSnapshot) :
  StronglySorted older_eq l -> StronglySorted older_eq (insert_createdOn d l).
Proof.
  induction l as [|y l IH]; simpl; intros Hs.
  - repeat constructor.
  - inversion_clear Hs as [|? ? Hl Hy].
    destruct (createdOn (data d) <=? createdOn (data y))%Z eqn:E.
    + apply Z.leb_le in E. constructor; [now constructor|].
      constructor; [exact E|].
      eapply Forall_impl; [|exact Hy]. unfold older_eq. intros; lia.
    + apply Z.leb_gt in E. constructor; [now apply IH|].
      apply Forall_forall. intros x Hx. apply insert_createdOn_In in Hx.
      destruct Hx as [->|Hx].
      * unfold older_eq. lia.
      * rewrite Forall_forall in Hy. now apply Hy.
Qed.

Lemma orderBy_createdOn_sorted (l : list QueryDocumentSnapshot) :
  StronglySorted older_eq (orderBy_createdOn l).
Proof.
  induction l as [|d l IH]; simpl; [constructor|].
  now apply insert_createdOn_sorted.
Qed.

Lemma insert_createdOn_front (d : QueryDocumentSnapshot)
  (l : list QueryDocumentSnapshot) :
  Forall (older_eq d) l -> insert_createdOn d l = d :: l.
Proof.
  destruct l as [|y l]; simpl; [reflexivity|]. intros H.
  inversion_clear H as [|? ? Hy _]. unfold older_eq in Hy.
  apply Z.leb_le in Hy. now rewrite Hy.
Qed.

Lemma filter_insert_createdOn (f : QueryDocumentSnapshot -> bool)
  (d : QueryDocumentSnapshot) (l : list QueryDocumentSnapshot) :
  StronglySorted older_eq l ->
  filter f (insert_createdOn d l)
  = if f d then insert_createdOn d (filter f l) else filter f l.
Proof.
  induction l as [|y l IH]; intros Hs.
  - simpl. now destruct (f d).
  - inversion_clear Hs as [|? ? Hl Hy]. cbn [insert_createdOn].
    destruct (createdOn (data d) <=? createdOn (data y))%Z eqn:E.
    + cbn [filter]. destruct (f d) eqn:Fd; [|reflexivity].
      symmetry. apply insert_createdOn_front.
      apply Z.leb_le in E.
      assert (Hall : Forall (older_eq d) (y :: l)).
      { constructor; [exact E|]. eapply Forall_impl; [|exact Hy].
        unfold older_eq. intros; lia. }
      apply Forall_forall. intros x Hx.
      rewrite Forall_forall in Hall. apply Hall.
      change (In x (filter f (y :: l))) in Hx.
      apply filter_In in Hx. tauto.
    + cbn [filter]. rewrite (IH Hl).
      destruct (f y) eqn:Fy, (f d) eqn:Fd; try reflexivity.
      cbn [insert_createdOn]. now rewrite E.
Qed.

Lemma filter_orderBy_createdOn (f : QueryDocumentSnapshot -> bool)
  (l : list QueryDocumentSnapshot) :
  filter f (orderBy_createdOn l) = orderBy_createdOn (filter f l).
Proof.
  induction l as [|d l IH]; [reflexivity|]. cbn [orderBy_createdOn filter].
  rewrite filter_insert_createdOn by apply orderBy_createdOn_sorted.
  rewrite IH. now destruct (f d).
Qed.

Lemma where_orderBy_createdOn (p : Task -> bool)
  (l : list QueryDocumentSnapshot) :
  where_ p (orderBy_createdOn l) = orderBy_createdOn (where_ p l).
Proof. apply filter_orderBy_createdOn. Qed.

(** In a sorted list, what is kept by [firstn] is no younger than what
    is left out. *)
Lemma firstn_sorted_oldest (n : nat) (l : list QueryDocumentSnapshot)
  (x y : QueryDocumentSnapshot) :
  StronglySorted older_eq l ->
  In x (firstn n l) -> In y (skipn n l) -> older_eq x y.
Proof.
  revert l. induction n as [|n IH]; intros l Hs Hx Hy; [destruct Hx|].
  destruct l as [|z l]; [destruct Hx|]. cbn [firstn skipn] in *.
  inversion_clear Hs as [|? ? Hl Hz]. destruct Hx as [->|Hx].
  - rewrite Forall_forall in Hz. apply Hz.
    rewrite <- (firstn_skipn n l). apply in_or_app. now right.
  - now apply (IH l).
Qed.

(* ------------------------------------------------------------------ *)

(** ** [tasksByUser]: each owner's tasks, in the order of the query *)

Lemma tasksOf_push (g : list (string * list Task)) (t : Task) (u : string) :
  tasksOf (push g t) u
  = tasksOf g u ++ (if owner t =? u then [t] else []).
Proof.
  induction g as [|[k ts] g IH]; cbn [push tasksOf].
  - now destruct (owner t =? u).
  - destruct (k =? owner t) eqn:Ek; cbn [tasksOf].
    + apply String.eqb_eq in Ek. subst k.
      destruct (owner t =? u); [reflexivity|]. now rewrite app_nil_r.
    + destruct (k =? u) eqn:Eu; [|exact IH].
      apply String.eqb_eq in Eu. subst k.
      rewrite String.eqb_sym in Ek. rewrite Ek. now rewrite app_nil_r.
Qed.

Lemma keys_push (g : list (string * list Task)) (t : Task) (u : string) :
  In u (map fst (push g t)) <-> In u (map fst g) \/ u = owner t.
Proof.
  induction g as [|[k ts] g IH]; cbn [push map fst In].
  - intuition congruence.
  - destruct (k =? owner t) eqn:Ek; cbn [map fst In].
    + apply String.eqb_eq in Ek. subst k. intuition congruence.
    + rewrite IH. tauto.
Qed.

Lemma NoDup_keys_push (g : list (string * list Task)) (t : Task) :
  NoDup (map fst g) -> NoDup (map fst (push g t)).
Proof.
  induction g as [|[k ts] g IH]; cbn [push map fst]; intros Hnd.
  - repeat constructor. intros [].
  - inversion_clear Hnd as [|? ? Hk Hg].
    destruct (k =? owner t) eqn:Ek; cbn [map fst].
    + now constructor.
    + constructor; [|now apply IH]. rewrite keys_push.
      apply String.eqb_neq in Ek. tauto.
Qed.

Lemma In_tasksOf (g : list (string * list Task)) (u : string)
  (ts : list Task) :
  NoDup (map fst g) -> In (u, ts) g -> tasksOf g u = ts.
Proof.
  induction g as [|[k ts'] g IH]; cbn [map fst tasksOf]; [easy|].
  intros Hnd Hin. inversion_clear Hnd as [|? ? Hk Hg].
  destruct Hin as [[= -> ->]|Hin].
  - now rewrite String.eqb_refl.
  - destruct (k =? u) eqn:E; [|now apply IH].
    apply String.eqb_eq in E. subst k. exfalso. apply Hk.
    change u with (fst (u, ts)). now apply in_map.
Qed.

Lemma fold_push_spec (l : list Task) (acc : list (string * list Task)) :
  NoDup (map fst acc) ->
  NoDup (map fst (fold_left push l acc))
  /\ (forall u, tasksOf (fold_left push l acc) u
                = tasksOf acc u ++ filter (fun t => owner t =? u) l)
  /\ (forall u, In u (map fst (fold_left push l acc))
                <-> In u (map fst acc) \/ In u (map owner l)).
Proof.
  revert acc. induction l as [|t l IH]; intros acc Hnd; cbn [fold_left].
  - split; [assumption|]. split; intros u.
    + now rewrite app_nil_r.
    + simpl. tauto.
  - destruct (IH (push acc t) (NoDup_keys_push acc t Hnd))
      as (Hn & Ht & Hk).
    split; [assumption|]. split; intros u.
    + rewrite Ht, tasksOf_push, <- app_assoc. f_equal.
      cbn [filter]. now destruct (owner t =? u).
    + rewrite Hk, keys_push. cbn [map In]. intuition congruence.
Qed.

Lemma groupsOf_entry (tasks : list Task) (u : string) (ts : list Task) :
  In (u, ts) (groupsOf tasks) -> ts = filter (fun t => owner t =? u) tasks.
Proof.
  unfold groupsOf. intros Hin.
  destruct (fold_push_spec tasks [] (NoDup_nil _)) as (Hn & Ht & _).
  rewrite <- (In_tasksOf _ _ _ Hn Hin). now rewrite Ht.
Qed.

Lemma groupsOf_owner (tasks : list Task) (t : Task) :
  In t tasks ->
  In (owner t, filter (fun t' => owner t' =? owner t) tasks) (groupsOf tasks).
Proof.
  intros Hin.
  destruct (fold_push_spec tasks [] (NoDup_nil _)) as (Hn & Ht & Hk).
  assert (K : In (owner t) (map fst (groupsOf tasks))).
  { unfold groupsOf. apply Hk. right. now apply in_map. }
  apply in_map_iff in K. destruct K as ([u ts] & Eu & Hin').
  cbn [fst] in Eu. subst u.
  now rewrite <- (groupsOf_entry _ _ _ Hin').
Qed.

Lemma hasOwn_In (g : list (string * list Task)) (k : string) :
  hasOwn g k = true <-> In k (map fst g).
Proof.
  unfold hasOwn. rewrite existsb_exists, in_map_iff. split.
  - intros (e & He & E). apply String.eqb_eq in E. now exists e.
  - intros (e & E & He). exists e. split; [assumption|].
    now apply String.eqb_eq.
Qed.

(** The grouping throws exactly when a task of the query has an owner
    named like a member of [Object.prototype]; otherwise it builds the
    entries of [push]. *)
Lemma groupFrom_eq (docs : list QueryDocumentSnapshot)
  (g : list (string * list Task)) :
  (forall k, In k (map fst g) -> inherited k = false) ->
  groupFrom docs g
  = if existsb (fun d => inherited (owner (data d))) docs
    then None
    else Some (fold_left push (map data docs) g).
Proof.
  revert g. induction docs as [|d docs IH]; intros g Hg; [reflexivity|].
  cbn [groupFrom existsb map fold_left]. unfold groupTask.
  destruct (inherited (owner (data d))) eqn:Ei.
  - replace (hasOwn g (owner (data d))) with false; [reflexivity|].
    symmetry. destruct (hasOwn g (owner (data d))) eqn:Eh; [|reflexivity].
    apply hasOwn_In, Hg in Eh. congruence.
  - rewrite andb_false_r. cbn [orb]. apply IH. intros k Hk.
    apply keys_push in Hk. destruct Hk as [Hk| ->]; [now apply Hg|exact Ei].
Qed.

Lemma groupByUser_eq (docs : list QueryDocumentSnapshot) :
  groupByUser docs
  = if existsb (fun d => inherited (owner (data d))) docs
    then None
    else Some (groupsOf (map data docs)).
Proof. apply groupFrom_eq. intros k H. destruct H. Qed.

Lemma insert_index_In (n : N) (e : string * list Task)
  (l : list (N * (string * list Task))) (x : N * (string * list Task)) :
  In x (insert_index n e l) <-> x = (n, e) \/ In x l.
Proof.
  induction l as [|[m y] l IH]; cbn [insert_index In].
  - intuition congruence.
  - destruct (n <=? m)%N; cbn [In]; [intuition congruence|].
    rewrite IH. intuition congruence.
Qed.

Lemma indexed_In (g : list (string * list Task)) (e : string * list Task) :
  In e (map snd (indexed g)) <-> In e g /\ arrayIndex (fst e) <> None.
Proof.
  induction g as [|x g IH]; cbn [indexed map In]; [tauto|].
  destruct (arrayIndex (fst x)) as [n|] eqn:Ex.
  - rewrite in_map_iff. split.
    + intros ([m y] & <- & Hy). cbn [snd].
      apply insert_index_In in Hy. destruct Hy as [[= -> ->]|Hy].
      * split; [now left|congruence].
      * assert (In y (map snd (indexed g)))
          by (apply in_map_iff; now exists (m, y)).
        apply IH in H. tauto.
    + intros ([->|He] & Hn).
      * exists (n, e). split; [reflexivity|].
        apply insert_index_In. now left.
      * assert (H : In e (map snd (indexed g))) by (apply IH; tauto).
        apply in_map_iff in H. destruct H as (y & <- & Hy).
        exists y. split; [reflexivity|]. apply insert_index_In. now right.
  - rewrite IH. split; [tauto|]. intros ([->|He] & Hn); [congruence|tauto].
Qed.

(** [Object.entries] lists every entry, whatever the order. *)
Lemma entries_In (g : list (string * list Task)) (e : string * list Task) :
  In e (entries g) <-> In e g.
Proof.
  unfold entries. rewrite in_app_iff, indexed_In, filter_In.
  destruct (arrayIndex (fst e)); split.
  - intros [[H _]|[_ H]]; [exact H|discriminate].
  - intros H. left. split; [exact H|discriminate].
  - intros [[_ H]|[H _]]; [exfalso; now apply H|exact H].
  - intros H. right. now split.
Qed.

Lemma In_firstn {A : Type} (n : nat) (l : list A) (x : A) :
  In x (firstn n l) -> In x l.
Proof.
  intros H. rewrite <- (firstn_skipn n l). apply in_or_app. now left.
Qed.

Lemma toPromote_incl (limits : WipLimits) (ts : list Task) (t : Task) :
  In t (toPromote limits ts) -> In t ts.
Proof.
  unfold toPromote. intros H. apply in_app_or in H.
  destruct H as [H|H]; apply In_firstn in H; apply filter_In in H; tauto.
Qed.

Lemma promotedTasks_throw (limits : WipLimits) (db : Store) :
  groupByUser (backlogTasksQuery db) = None -> promotedTasks limits db = [].
Proof. unfold promotedTasks. now intros ->. Qed.

(** When the grouping does not throw, a task is picked exactly when it is
    among the first of its owner's P1 or P2 tasks in the backlog query. *)
Lemma promotedTasks_spec (limits : WipLimits) (db : Store) (t : Task) :
  groupByUser (backlogTasksQuery db) <> None ->
  In t (promotedTasks limits db)
  <-> In t (toPromote limits
              (filter (fun t' => owner t' =? owner t)
                 (map data (backlogTasksQuery db)))).
Proof.
  intros Hg. unfold promotedTasks. rewrite groupByUser_eq in *.
  destruct (existsb _ (backlogTasksQuery db)); [congruence|].
  rewrite in_flat_map. split.
  - intros ([u ts] & Hin & Ht). cbn [snd] in Ht.
    apply (proj1 (entries_In _ _)) in Hin.
    pose proof (groupsOf_entry _ _ _ Hin) as E. subst ts.
    pose proof (toPromote_incl _ _ _ Ht) as Hf.
    apply filter_In in Hf. destruct Hf as [_ Eo].
    apply String.eqb_eq in Eo. now rewrite Eo.
  - intros Ht.
    exists (owner t, filter (fun t' => owner t' =? owner t)
                       (map data (backlogTasksQuery db))).
    split; [|exact Ht].
    apply (proj2 (entries_In _ _)), groupsOf_owner.
    apply toPromote_incl in Ht. apply filter_In in Ht. tauto.
Qed.

Lemma promotedTasks_In (limits : WipLimits) (db : Store) (t : Task) :
  In t (promotedTasks limits db) ->
  groupByUser (backlogTasksQuery db) <> None
  /\ exists d, In d db /\ data d = t /\ status t = BACKLOG.
Proof.
  intros Ht.
  assert (Hg : groupByUser (backlogTasksQuery db) <> None).
  { intros E. now rewrite (promotedTasks_throw limits db E) in Ht. }
  split; [exact Hg|].
  apply (promotedTasks_spec limits db t Hg), toPromote_incl, filter_In in Ht.
  destruct Ht as [Ht _]. apply in_map_iff in Ht.
  destruct Ht as (d & Ed & Hd). unfold backlogTasksQuery, where_ in Hd.
  apply orderBy_createdOn_In, filter_In in Hd. destruct Hd as [Hd Hs].
  apply status_eqb_eq in Hs. exists d. subst t. tauto.
Qed.

(* ------------------------------------------------------------------ *)
(** ** The promotion, document by document *)

Lemma queue_tasks (db : Store) (u : string) (p : Priority) :
  filter (fun t => priority_eqb (priority t) p)
    (filter (fun t => owner t =? u) (map data (backlogTasksQuery db)))
  = map data (fifo_queue db u p).
Proof.
  rewrite !filter_map_swap. f_equal. unfold backlogTasksQuery, fifo_queue.
  change (where_ (fun t => priority_eqb (priority t) p)
            (where_ (fun t => owner t =? u)
               (orderBy_createdOn
                  (where_ (fun t => status_eqb (status t) BACKLOG) db)))
          = orderBy_createdOn
              (where_ (fun t => status_eqb (status t) BACKLOG
                                && (owner t =? u)
                                && priority_eqb (priority t) p) db)).
  rewrite !where_orderBy_createdOn. f_equal.
  now rewrite (where_where _ _ db), where_where.
Qed.

Lemma fifo_queue_In (db : Store) (u : string) (p : Priority)
  (d : QueryDocumentSnapshot) :
  In d (fifo_queue db u p)
  <-> In d db /\ status (data d) = BACKLOG /\ owner (data d) = u
      /\ priority (data d) = p.
Proof.
  unfold fifo_queue, where_. rewrite orderBy_createdOn_In, filter_In.
  rewrite !andb_true_iff, status_eqb_eq, String.eqb_eq, priority_eqb_eq.
  tauto.
Qed.

Lemma toPromote_queue (limits : WipLimits) (db : Store) (u : string)
  (t : Task) :
  In t (toPromote limits
          (filter (fun t' => owner t' =? u)
             (map data (backlogTasksQuery db))))
  <-> In t (map data (firstn (p1MaxToday limits) (fifo_queue db u P1)))
      \/ In t (map data (firstn (p2MaxToday limits) (fifo_queue db u P2))).
Proof.
  unfold toPromote. rewrite in_app_iff, !queue_tasks, !firstn_map.
  tauto.
Qed.

(* ------------------------------------------------------------------ *)
(** ** The two batches of the triage *)

Lemma todayTasksQuery_today (db : Store) :
  todayTasksQuery db = where_ (fun t => status_eqb (status t) TODAY) db.
Proof.
  unfold todayTasksQuery. rewrite where_where. unfold where_.
  apply filter_ext. intros d. now destruct (status (data d)).
Qed.

Lemma batch1_status_batch (db : Store) :
  batch1 db = status_batch BACKLOG (map ref (todayTasksQuery db)).
Proof. unfold batch1, status_batch. now rewrite map_map. Qed.

Lemma refs_exist (db : Store) (docs : list QueryDocumentSnapshot) :
  incl docs db -> forallb (exists_doc db) (map ref docs) = true.
Proof.
  intros Hincl. apply forallb_forall. intros r Hr. apply exists_doc_In.
  apply in_map_iff in Hr. destruct Hr as (d & <- & Hd).
  apply in_map. now apply Hincl.
Qed.

Lemma where_incl (p : Task -> bool) (db : Store) : incl (where_ p db) db.
Proof. intros d Hd. unfold where_ in Hd. apply filter_In in Hd. tauto. Qed.

Lemma commit_batch1 (db : Store) :
  commit db (batch1 db)
  = Some (map (touch (map ref (todayTasksQuery db)) BACKLOG) db).
Proof.
  unfold commit. rewrite batch1_status_batch, run_status_batch.
  rewrite refs_exist; [reflexivity|].
  rewrite todayTasksQuery_today. apply where_incl.
Qed.

Lemma demoteToday_touch (db : Store) :
  store_wf db ->
  map (touch (map ref (todayTasksQuery db)) BACKLOG) db = demoteToday db.
Proof.
  intros Hwf. unfold demoteToday. apply map_ext_in. intros d Hd.
  rewrite todayTasksQuery_today.
  destruct (status_eqb (status (data d)) TODAY) eqn:E.
  - apply touch_In. apply in_map. unfold where_. apply filter_In. tauto.
  - apply touch_notin. intros Hin. apply in_map_iff in Hin.
    destruct Hin as (d' & Er & Hd'). unfold where_ in Hd'.
    apply filter_In in Hd'. destruct Hd' as [Hd' Ed'].
    assert (d' = d) by now apply (same_ref_eq db). subst d'. congruence.
Qed.

Lemma map_ref_demoteToday (db : Store) :
  map ref (demoteToday db) = map ref db.
Proof.
  unfold demoteToday. rewrite map_map. apply map_ext. intros d.
  now destruct (status_eqb (status (data d)) TODAY).
Qed.

Lemma store_wf_demoteToday (db : Store) :
  store_wf db -> store_wf (demoteToday db).
Proof. unfold store_wf. now rewrite map_ref_demoteToday. Qed.

Lemma store_wf_touch (refs : list string) (st : TaskStatus) (db : Store) :
  store_wf db -> store_wf (map (touch refs st) db).
Proof. unfold store_wf. now rewrite map_ref_touch. Qed.

Lemma get_touch (refs : list string) (st : TaskStatus) (db : Store)
  (d : QueryDocumentSnapshot) :
  store_wf db -> In d db ->
  get (map (touch refs st) db) (ref d) = Some (data (touch refs st d)).
Proof.
  intros Hwf Hd. rewrite get_map_ref by apply ref_touch.
  rewrite (get_In db d Hwf Hd). cbn [option_map]. now destruct d.
Qed.

Lemma In_demoteToday (db : Store) (d : QueryDocumentSnapshot) :
  In d (demoteToday db) -> status (data d) <> TODAY.
Proof.
  unfold demoteToday. rewrite in_map_iff. intros (d0 & <- & _).
  destruct (status_eqb (status (data d0)) TODAY) eqn:E; [discriminate|].
  now apply status_eqb_neq.
Qed.

Lemma demoteToday_keeps (db : Store) (d : QueryDocumentSnapshot) :
  In d db -> status (data d) <> TODAY -> In d (demoteToday db).
Proof.
  intros Hd Hs. unfold demoteToday. apply in_map_iff. exists d.
  apply status_eqb_neq in Hs. now rewrite Hs.
Qed.

Lemma map_touch_nil (st : TaskStatus) (db : Store) :
  map (touch [] st) db = db.
Proof.
  induction db as [|d db IH]; simpl; [reflexivity|]. now rewrite IH.
Qed.

(* ------------------------------------------------------------------ *)
(** ** The [id]s the promotion addresses *)

Lemma name_no_other_In (db : Store) (d : QueryDocumentSnapshot) (r : string) :
  ids_name_no_other db -> In d db -> id (data d) = Some r ->
  In r (map ref db) -> r = ref d.
Proof.
  unfold ids_name_no_other. rewrite Forall_forall. intros H Hd. now apply H.
Qed.

Lemma ids_name_no_other_map
  (f : QueryDocumentSnapshot -> QueryDocumentSnapshot) (db : Store) :
  (forall d, ref (f d) = ref d /\ id (data (f d)) = id (data d)) ->
  ids_name_no_other db -> ids_name_no_other (map f db).
Proof.
  unfold ids_name_no_other. intros Hf H.
  assert (E : map ref (map f db) = map ref db).
  { rewrite map_map. apply map_ext. intros d. apply Hf. }
  rewrite E. apply Forall_map. eapply Forall_impl; [|exact H].
  intros d Hd r. destruct (Hf d) as [-> ->]. apply Hd.
Qed.

Lemma ids_name_no_other_demoteToday (db : Store) :
  ids_name_no_other db -> ids_name_no_other (demoteToday db).
Proof.
  apply ids_name_no_other_map. intros d.
  now destruct (status_eqb (status (data d)) TODAY).
Qed.

Lemma ids_name_no_other_touch (refs : list string) (st : TaskStatus)
  (db : Store) :
  ids_name_no_other db -> ids_name_no_other (map (touch refs st) db).
Proof.
  apply ids_name_no_other_map. intros d. unfold touch.
  now destruct (existsb (String.eqb (ref d)) refs).
Qed.

Lemma addUpdates_Some (tasks : list Task) (batch : list WriteOp) :
  addUpdates tasks = Some batch ->
  batch = status_batch TODAY
            (flat_map (fun task => match id task with
                                   | Some r => [r]
                                   | None => []
                                   end) tasks)
  /\ forall t, In t tasks -> exists r, id t = Some r.
Proof.
  revert batch. induction tasks as [|t tasks IH]; intros batch.
  - intros [= <-]. split; [reflexivity|]. intros t [].
  - cbn [addUpdates]. destruct (id t) as [r|] eqn:Ei; [|discriminate].
    cbn [doc]. destruct (r =? ""); [discriminate|].
    destruct (addUpdates tasks) as [b|]; [|discriminate].
    intros [= <-]. destruct (IH b eq_refl) as [-> Hall]. split.
    + cbn [flat_map]. now rewrite Ei.
    + intros t' [<-|Ht']; [now exists r|now apply Hall].
Qed.

Lemma addUpdates_None (tasks : list Task) (t : Task) :
  In t tasks -> id t = None -> addUpdates tasks = None.
Proof.
  intros Hin Ei. induction tasks as [|x tasks IH]; [destruct Hin|].
  cbn [addUpdates]. destruct Hin as [->|Hin].
  - now rewrite Ei.
  - destruct (doc (id x)); [|reflexivity]. now rewrite (IH Hin).
Qed.

Lemma batch2_Some (limits : WipLimits) (db : Store) (batch : list WriteOp) :
  batch2 limits db = Some batch ->
  groupByUser (backlogTasksQuery db) <> None
  /\ batch = status_batch TODAY (promotedIds limits db)
  /\ forall t, In t (promotedTasks limits db) -> exists r, id t = Some r.
Proof.
  unfold batch2, promotedIds, promotedTasks.
  destruct (groupByUser (backlogTasksQuery db)) as [g|]; [|discriminate].
  intros H. apply addUpdates_Some in H. split; [discriminate|exact H].
Qed.

Lemma written_refs_status_batch (st : TaskStatus) (refs : list string) :
  written_refs (status_batch st refs) = refs.
Proof.
  unfold written_refs, status_batch. rewrite map_map. apply map_id.
Qed.

(** What a committed promotion tells: nothing threw, and every task
    picked carries an [id] that is the reference of a document. *)
Lemma promotes_true (limits : WipLimits) (db : Store) :
  promotes limits db = true ->
  groupByUser (backlogTasksQuery db) <> None
  /\ forall t, In t (promotedTasks limits db) ->
       exists r, id t = Some r /\ In r (map ref db).
Proof.
  unfold promotes. destruct (batch2 limits db) as [b|] eqn:Eb;
    [|discriminate].
  destruct (batch2_Some limits db b Eb) as (Hg & -> & Hid).
  rewrite written_refs_status_batch, forallb_forall. intros Hex.
  split; [exact Hg|]. intros t Ht. destruct (Hid t Ht) as (r & Er).
  exists r. split; [exact Er|]. apply exists_doc_In, Hex.
  unfold promotedIds. apply in_flat_map. exists t. rewrite Er.
  split; [exact Ht|now left].
Qed.

Lemma promotedRefs_In (limits : WipLimits) (db : Store) (r : string) :
  In r (promotedRefs limits db)
  <-> promotes limits db = true
      /\ exists t, In t (promotedTasks limits db) /\ id t = Some r.
Proof.
  unfold promotedRefs, promotedIds.
  destruct (promotes limits db); [|split; [intros []|intros [[=] _]]].
  rewrite in_flat_map. split.
  - intros (t & Ht & Hr). split; [reflexivity|]. exists t.
    destruct (id t) as [r'|]; [|destruct Hr].
    destruct Hr as [->|[]]. now split.
  - intros (_ & t & Ht & Er). exists t. rewrite Er. split; [exact Ht|].
    now left.
Qed.

(** The triage as two maps over the collection, without any assumption:
    the first batch always commits; the second is committed as a whole
    or not at all. *)
Lemma dailyTriage_touch (limits : WipLimits) (db : Store) :
  let db1 := map (touch (map ref (todayTasksQuery db)) BACKLOG) db in
  commit db (batch1 db) = Some db1
  /\ dailyTriage limits db
     = map (touch (promotedRefs limits db1) TODAY) db1.
Proof.
  intros db1. split; [apply commit_batch1|].
  unfold dailyTriage. rewrite commit_batch1. fold db1.
  unfold promotedRefs, promotes.
  destruct (batch2 limits db1) as [b|] eqn:Eb;
    [|now rewrite map_touch_nil].
  destruct (batch2_Some limits db1 b Eb) as (_ & -> & _).
  unfold commit. rewrite run_status_batch, written_refs_status_batch.
  destruct (forallb (exists_doc db1) (promotedIds limits db1));
    [reflexivity|now rewrite map_touch_nil].
Qed.

(** The triage on a collection with one document per reference:
    demotion, then the committed promotion if there is one. *)
Lemma dailyTriage_wf (limits : WipLimits) (db : Store) :
  store_wf db ->
  dailyTriage limits db
  = map (touch (promotedRefs limits (demoteToday db)) TODAY) (demoteToday db).
Proof.
  intros Hwf. rewrite (proj2 (dailyTriage_touch limits db)).
  now rewrite (demoteToday_touch db Hwf).
Qed.

(** On a collection where no task's [id] names another document, the
    documents a committed promotion writes are the first of each owner's
    P1 and P2 queue. *)
Lemma promotedRefs_spec (limits : WipLimits) (db : Store)
  (d : QueryDocumentSnapshot) :
  store_wf db -> ids_name_no_other db -> In d db ->
  In (ref d) (promotedRefs limits db)
  <-> promotes limits db = true /\ fifo_promoted limits db d.
Proof.
  intros Hwf Hid Hd. rewrite promotedRefs_In. split.
  - intros (Hp & t & Ht & Et). split; [exact Hp|].
    destruct (promotes_true limits db Hp) as (Hg & Hex).
    apply (promotedTasks_spec limits db t Hg), toPromote_queue in Ht.
    assert (K : forall n p,
               In t (map data (firstn n (fifo_queue db (owner t) p))) ->
               In d (firstn n (fifo_queue db (owner (data d)) p))).
    { intros n p H. apply in_map_iff in H. destruct H as (d' & Ed & Hd').
      assert (Hin : In d' db).
      { apply In_firstn in Hd'. apply fifo_queue_In in Hd'. tauto. }
      assert (d' = d).
      { apply (same_ref_eq db); try assumption. symmetry.
        apply (name_no_other_In db d' (ref d) Hid Hin);
          [now rewrite Ed|now apply in_map]. }
      subst d'. now rewrite Ed. }
    unfold fifo_promoted. destruct Ht as [Ht|Ht]; [left|right]; now apply K.
  - intros (Hp & Hpr). split; [exact Hp|].
    destruct (promotes_true limits db Hp) as (Hg & Hex).
    assert (Ht : In (data d) (promotedTasks limits db)).
    { apply (promotedTasks_spec limits db _ Hg), toPromote_queue.
      destruct Hpr as [H|H]; [left|right]; now apply in_map. }
    exists (data d). split; [exact Ht|].
    destruct (Hex _ Ht) as (r & Er & Hr). rewrite Er. f_equal.
    now apply (name_no_other_In db d r Hid Hd).
Qed.


Lemma dailyTriage_get_kept (limits : WipLimits) (db : Store)
  (d : QueryDocumentSnapshot) :
  store_wf db -> ids_name_no_other db -> In d (demoteToday db) ->
  ~ fifo_promoted limits (demoteToday db) d ->
  get (dailyTriage limits db) (ref d) = Some (data d).
Proof.
  intros Hwf Hid Hd Hp. rewrite (dailyTriage_wf limits db Hwf).
  rewrite get_touch; [|now apply store_wf_demoteToday|assumption].
  rewrite touch_notin; [reflexivity|]. intros Hin. apply Hp.
  apply promotedRefs_spec in Hin; try tauto.
  - now apply store_wf_demoteToday.
  - now apply ids_name_no_other_demoteToday.
Qed.

Lemma fifo_promoted_inv (limits : WipLimits) (db : Store)
  (d : QueryDocumentSnapshot) :
  fifo_promoted limits db d ->
  In d db /\ status (data d) = BACKLOG
  /\ (priority (data d) = P1 \/ priority (data d) = P2).
Proof.
  intros [H|H]; apply In_firstn, fifo_queue_In in H; tauto.
Qed.

(* ------------------------------------------------------------------ *)
(** ** Daily triage: the properties *)

Ltac solve_ids :=
  unfold ids_name_no_other;
  repeat (constructor;
          [let E := fresh in
           let H := fresh in
           intros ? E H; simpl in E, H; try discriminate E;
           injection E as <-; first [reflexivity|intuition discriminate]|]);
  constructor.

(** On the documents the application writes, which carry no [id], the
    triage promotes nothing: it ends with every [TODAY] task in
    [BACKLOG]. *)
Lemma dailyTriage_without_ids (limits : WipLimits) (db : Store) :
  store_wf db -> Forall (fun d => id (data d) = None) db ->
  dailyTriage limits db = demoteToday db.
Proof.
  intros Hwf Hnone. rewrite (dailyTriage_wf limits db Hwf).
  replace (promotedRefs limits (demoteToday db)) with (@nil string);
    [apply map_touch_nil|].
  symmetry. destruct (promotedRefs limits (demoteToday db)) as [|r l] eqn:E;
    [reflexivity|].
  assert (Hr : In r (promotedRefs limits (demoteToday db)))
    by (rewrite E; now left).
  apply promotedRefs_In in Hr. destruct Hr as (_ & t & Ht & Ei).
  apply promotedTasks_In in Ht. destruct Ht as (_ & d & Hd & <- & _).
  unfold demoteToday in Hd. apply in_map_iff in Hd.
  destruct Hd as (d0 & <- & Hd0). rewrite Forall_forall in Hnone.
  specialize (Hnone d0 Hd0).
  destruct (status_eqb (status (data d0)) TODAY); cbn [data merge id] in Ei;
    congruence.
Qed.

(** C4 (the code departs from the claim).  Step 3 addresses the document
    to promote by the [id] field of the task data, where step 1 and the
    archiver use the reference of the document read.  The page stores no
    [id], so on its documents [doc(task.id)] throws and the run ends with
    nothing promoted: with two P1 tasks of one owner in [BACKLOG] and a
    limit of one, the older is not promoted, and with the default limits
    a task in [TODAY] is only sent back.  The same tasks with their
    reference stored as [id] are promoted as the claim says, unless their
    owner is named like a member of [Object.prototype], where the
    grouping throws. *)
Theorem dailyTriage_promotes_nothing_without_id :
  let one := mkWipLimits 1 5 in
  statuses (dailyTriage one [pageTask "B" "u" P1 BACKLOG 20;
                             pageTask "A" "u" P1 BACKLOG 10])
  = [("B", BACKLOG); ("A", BACKLOG)]
  /\ statuses (dailyTriage DEFAULT_WIP_LIMITS
                 [pageTask "d1" "u" P1 TODAY 1; pageTask "d2" "u" P1 BACKLOG 2;
                  pageTask "d3" "u" P2 BACKLOG 3])
     = [("d1", BACKLOG); ("d2", BACKLOG); ("d3", BACKLOG)]
  /\ statuses (dailyTriage one [task "B" "u" P1 BACKLOG 20;
                                task "A" "u" P1 BACKLOG 10])
     = [("B", BACKLOG); ("A", TODAY)]
  /\ statuses (dailyTriage one [task "B" "constructor" P1 BACKLOG 20;
                                task "A" "constructor" P1 BACKLOG 10])
     = [("B", BACKLOG); ("A", BACKLOG)].
Proof. repeat split. Qed.

(** C5: on a collection where no task's [id] names another document (as
    on the documents of the application, which store no [id]), a triage
    run never leaves a task of priority P3 or P4 in [TODAY]: such a task
    that was in [TODAY] is sent to [BACKLOG], and any other is left as it
    is. *)
Theorem dailyTriage_skips_P3_P4 (limits : WipLimits) (db : Store)
  (d : QueryDocumentSnapshot) :
  store_wf db -> ids_name_no_other db -> In d db ->
  priority (data d) = P3 \/ priority (data d) = P4 ->
  exists t, get (dailyTriage limits db) (ref d) = Some t
            /\ status t <> TODAY
            /\ (status (data d) <> TODAY -> t = data d).
Proof.
  intros Hwf Hid Hd Hp.
  set (d' := if status_eqb (status (data d)) TODAY
             then mkDoc (ref d) (merge (data d) (status_only BACKLOG))
             else d).
  assert (Hd' : In d' (demoteToday db)).
  { unfold demoteToday. apply in_map_iff. now exists d. }
  assert (Er : ref d' = ref d).
  { unfold d'. now destruct (status_eqb (status (data d)) TODAY). }
  assert (Ep : priority (data d') = priority (data d)).
  { unfold d'. now destruct (status_eqb (status (data d)) TODAY). }
  exists (data d'). rewrite <- Er. split; [|split].
  - apply dailyTriage_get_kept; try assumption.
    intros H. apply fifo_promoted_inv in H. rewrite Ep in H.
    destruct H as (_ & _ & [H|H]), Hp as [Hp|Hp]; congruence.
  - now apply (In_demoteToday db).
  - intros Hs. unfold d'. apply status_eqb_neq in Hs. now rewrite Hs.
Qed.

Lemma dailyTriage_skips_P3_P4_witness :
  let db := [pageTask "old" "u" P3 BACKLOG 1; pageTask "lone" "v" P4 TODAY 2;
             pageTask "new" "u" P1 BACKLOG 50] in
  let db' := [task "old" "u" P3 BACKLOG 1; task "new" "u" P1 BACKLOG 50] in
  (store_wf db /\ ids_name_no_other db
   /\ store_wf db' /\ ids_name_no_other db')
  /\ (exists t, get (dailyTriage DEFAULT_WIP_LIMITS db) "old" = Some t
                /\ status t <> TODAY
                /\ (BACKLOG <> TODAY ->
                    t = data (pageTask "old" "u" P3 BACKLOG 1)))
  /\ (exists t, get (dailyTriage DEFAULT_WIP_LIMITS db) "lone" = Some t
                /\ status t <> TODAY
                /\ (TODAY <> TODAY ->
                    t = data (pageTask "lone" "v" P4 TODAY 2)))
  /\ statuses (dailyTriage DEFAULT_WIP_LIMITS db')
     = [("old", BACKLOG); ("new", TODAY)]
  /\ (exists t, get (dailyTriage DEFAULT_WIP_LIMITS db') "old" = Some t
                /\ status t <> TODAY
                /\ (BACKLOG <> TODAY ->
                    t = data (task "old" "u" P3 BACKLOG 1))).
Proof.
  assert (Hwf : store_wf [pageTask "old" "u" P3 BACKLOG 1;
                          pageTask "lone" "v" P4 TODAY 2;
                          pageTask "new" "u" P1 BACKLOG 50]) by solve_wf.
  assert (Hid : ids_name_no_other [pageTask "old" "u" P3 BACKLOG 1;
                                   pageTask "lone" "v" P4 TODAY 2;
                                   pageTask "new" "u" P1 BACKLOG 50])
    by solve_ids.
  assert (Hwf' : store_wf [task "old" "u" P3 BACKLOG 1;
                           task "new" "u" P1 BACKLOG 50]) by solve_wf.
  assert (Hid' : ids_name_no_other [task "old" "u" P3 BACKLOG 1;
                                    task "new" "u" P1 BACKLOG 50])
    by solve_ids.
  split; [exact (conj Hwf (conj Hid (conj Hwf' Hid')))|].
  split; [|split; [|split; [reflexivity|]]].
  - apply (dailyTriage_skips_P3_P4 DEFAULT_WIP_LIMITS _
             (pageTask "old" "u" P3 BACKLOG 1) Hwf Hid).
    + simpl. tauto.
    + now left.
  - apply (dailyTriage_skips_P3_P4 DEFAULT_WIP_LIMITS _
             (pageTask "lone" "v" P4 TODAY 2) Hwf Hid).
    + simpl. tauto.
    + now right.
  - apply (dailyTriage_skips_P3_P4 DEFAULT_WIP_LIMITS _
             (task "old" "u" P3 BACKLOG 1) Hwf' Hid').
    + simpl. tauto.
    + now left.
Defined.

Lemma merge_today_backlog (t : Task) :
  status t = BACKLOG ->
  merge (merge t (status_only TODAY)) (status_only BACKLOG) = t.
Proof. destruct t; simpl. now intros ->. Qed.

(** Demoting after the promotion gives back the collection the promotion
    started from. *)
Lemma demoteToday_promotion (limits : WipLimits) (db1 : Store) :
  store_wf db1 -> ids_name_no_other db1 ->
  (forall d, In d db1 -> status (data d) <> TODAY) ->
  demoteToday (map (touch (promotedRefs limits db1) TODAY) db1) = db1.
Proof.
  intros Hwf Hid Hnt. unfold demoteToday. rewrite map_map.
  transitivity (map (fun d => d) db1); [|apply map_id].
  apply map_ext_in. intros d Hd.
  destruct (in_dec string_dec (ref d) (promotedRefs limits db1)) as [Hin|Hin].
  - rewrite (touch_In _ _ _ Hin). cbn [data ref merge status_only
      upd_status status status_eqb].
    apply promotedRefs_spec in Hin; try assumption.
    destruct Hin as [_ Hin]. apply fifo_promoted_inv in Hin.
    destruct Hin as (_ & Hs & _).
    change (mkDoc (ref d)
              (merge (merge (data d) (status_only TODAY))
                 (status_only BACKLOG)) = d).
    rewrite (merge_today_backlog _ Hs). now destruct d.
  - rewrite (touch_notin _ _ _ Hin). specialize (Hnt d Hd).
    apply status_eqb_neq in Hnt. now rewrite Hnt.
Qed.

(** C6: on a collection where no task's [id] names another document, a
    second triage run on the result of the first, with nothing in
    between, ends in the same collection: the documents it sends back to
    [BACKLOG] are those the first run promoted, its promotion starts from
    the same backlog and writes the same documents, and the collection
    after it is the collection after the first run. *)
Theorem dailyTriage_twice (limits : WipLimits) (db : Store) :
  store_wf db -> ids_name_no_other db ->
  let once := dailyTriage limits db in
  (forall r, In r (map ref (todayTasksQuery once))
             <-> In r (promotedRefs limits (demoteToday db)))
  /\ demoteToday once = demoteToday db
  /\ promotedRefs limits (demoteToday once)
     = promotedRefs limits (demoteToday db)
  /\ dailyTriage limits once = once.
Proof.
  intros Hwf Hid once.
  pose proof (store_wf_demoteToday db Hwf) as Hwf1.
  pose proof (ids_name_no_other_demoteToday db Hid) as Hid1.
  assert (E : once = map (touch (promotedRefs limits (demoteToday db)) TODAY)
                       (demoteToday db))
    by now apply dailyTriage_wf.
  assert (Hdem : demoteToday once = demoteToday db).
  { rewrite E. apply demoteToday_promotion; try assumption.
    apply In_demoteToday. }
  split; [|split; [exact Hdem|split]].
  - intros r. rewrite todayTasksQuery_today. unfold where_.
    rewrite in_map_iff. split.
    + intros (d' & <- & Hd'). apply filter_In in Hd'.
      destruct Hd' as [Hd' Hs]. apply status_eqb_eq in Hs.
      rewrite E in Hd'. apply in_map_iff in Hd'.
      destruct Hd' as (d & <- & Hd). rewrite ref_touch.
      destruct (in_dec string_dec (ref d)
                  (promotedRefs limits (demoteToday db))) as [Hin|Hin];
        [assumption|].
      rewrite (touch_notin _ _ _ Hin) in Hs.
      now apply In_demoteToday in Hd.
    + intros Hin. pose proof Hin as Hin'.
      apply promotedRefs_In in Hin'. destruct Hin' as (Hp & t & Ht & Ei).
      destruct (promotes_true limits _ Hp) as (_ & Hex).
      destruct (Hex t Ht) as (r' & Er' & Hr'). rewrite Ei in Er'.
      injection Er' as <-. apply in_map_iff in Hr'.
      destruct Hr' as (d & <- & Hd).
      exists (touch (promotedRefs limits (demoteToday db)) TODAY d).
      split; [apply ref_touch|]. apply filter_In. split.
      * rewrite E. now apply in_map.
      * now rewrite (touch_In _ _ _ Hin).
  - now rewrite Hdem.
  - rewrite dailyTriage_wf.
    + now rewrite Hdem.
    + rewrite E. now apply store_wf_touch.
Qed.

Lemma dailyTriage_twice_witness :
  let db := [pageTask "d4" "u" P1 BACKLOG 4; pageTask "d2" "u" P1 TODAY 2;
             pageTask "d3" "u" P1 BACKLOG 3; pageTask "d1" "u" P1 BACKLOG 1] in
  let db' := [task "d4" "u" P1 BACKLOG 4; task "d2" "u" P1 TODAY 2;
              task "d3" "u" P1 BACKLOG 3; task "d1" "u" P1 BACKLOG 1] in
  (store_wf db /\ ids_name_no_other db
   /\ store_wf db' /\ ids_name_no_other db')
  /\ statuses (dailyTriage DEFAULT_WIP_LIMITS db)
     = [("d4", BACKLOG); ("d2", BACKLOG); ("d3", BACKLOG); ("d1", BACKLOG)]
  /\ dailyTriage DEFAULT_WIP_LIMITS (dailyTriage DEFAULT_WIP_LIMITS db)
     = dailyTriage DEFAULT_WIP_LIMITS db
  /\ statuses (dailyTriage DEFAULT_WIP_LIMITS db')
     = [("d4", BACKLOG); ("d2", TODAY); ("d3", TODAY); ("d1", TODAY)]
  /\ dailyTriage DEFAULT_WIP_LIMITS (dailyTriage DEFAULT_WIP_LIMITS db')
     = dailyTriage DEFAULT_WIP_LIMITS db'.
Proof.
  assert (Hwf : store_wf [pageTask "d4" "u" P1 BACKLOG 4;
                          pageTask "d2" "u" P1 TODAY 2;
                          pageTask "d3" "u" P1 BACKLOG 3;
                          pageTask "d1" "u" P1 BACKLOG 1]) by solve_wf.
  assert (Hid : ids_name_no_other [pageTask "d4" "u" P1 BACKLOG 4;
                                   pageTask "d2" "u" P1 TODAY 2;
                                   pageTask "d3" "u" P1 BACKLOG 3;
                                   pageTask "d1" "u" P1 BACKLOG 1])
    by solve_ids.
  assert (Hwf' : store_wf [task "d4" "u" P1 BACKLOG 4; task "d2" "u" P1 TODAY 2;
                           task "d3" "u" P1 BACKLOG 3;
                           task "d1" "u" P1 BACKLOG 1]) by solve_wf.
  assert (Hid' : ids_name_no_other [task "d4" "u" P1 BACKLOG 4;
                                    task "d2" "u" P1 TODAY 2;
                                    task "d3" "u" P1 BACKLOG 3;
                                    task "d1" "u" P1 BACKLOG 1])
    by solve_ids.
  split; [exact (conj Hwf (conj Hid (conj Hwf' Hid')))|].
  split; [reflexivity|]. split.
  - apply (dailyTriage_twice DEFAULT_WIP_LIMITS _ Hwf Hid).
  - split; [reflexivity|].
    apply (dailyTriage_twice DEFAULT_WIP_LIMITS _ Hwf' Hid').
Defined.

(* ------------------------------------------------------------------ *)
(** ** The archiver *)

Lemma touch_where (p : Task -> bool) (st : TaskStatus) (db : Store) :
  store_wf db ->
  map (touch (map ref (where_ p db)) st) db
  = map (fun d => if p (data d)
                  then mkDoc (ref d) (merge (data d) (status_only st))
                  else d) db.
Proof.
  intros Hwf. apply map_ext_in. intros d Hd.
  destruct (p (data d)) eqn:E.
  - apply touch_In. apply in_map. unfold where_. apply filter_In. tauto.
  - apply touch_notin. intros Hin. apply in_map_iff in Hin.
    destruct Hin as (d' & Er & Hd'). unfold where_ in Hd'.
    apply filter_In in Hd'. destruct Hd' as [Hd' Ed'].
    assert (d' = d) by now apply (same_ref_eq db). subst d'. congruence.
Qed.

Lemma staleTasksQuery_where (now : Z) (db : Store) :
  staleTasksQuery now db
  = where_ (fun t => status_eqb (status t) BACKLOG
                     && (createdOn t <? cutoffDate now)%Z) db.
Proof. unfold staleTasksQuery. apply where_where. Qed.

Lemma archiveOldTasks_touch (now : Z) (db : Store) :
  archiveOldTasks now db
  = map (touch (map ref (staleTasksQuery now db)) ARCHIVE) db.
Proof.
  unfold archiveOldTasks, archiveBatch, commit.
  destruct (staleTasksQuery now db) as [|q l] eqn:E.
  - cbn [map]. now rewrite map_touch_nil.
  - rewrite <- (map_map ref (fun r => Update r (status_only ARCHIVE))).
    fold (status_batch ARCHIVE (map ref (q :: l))).
    rewrite run_status_batch, refs_exist; [reflexivity|].
    rewrite <- E, staleTasksQuery_where. apply where_incl.
Qed.

Lemma archiveOldTasks_wf (now : Z) (db : Store) :
  store_wf db -> archiveOldTasks now db = archiveStale now db.
Proof.
  intros Hwf. rewrite archiveOldTasks_touch, staleTasksQuery_where.
  now apply touch_where.
Qed.




(* ------------------------------------------------------------------ *)
(** ** Tasks in [ARCHIVE] *)

Lemma get_delete_other (db : Store) (r r' : string) :
  r' <> r -> get (delete_doc db r) r' = get db r'.
Proof.
  intros N. unfold delete_doc.
  induction db as [|x db IH]; [reflexivity|]. cbn [filter get].
  destruct (ref x =? r) eqn:E; cbn [negb get].
  - apply String.eqb_eq in E. subst r.
    apply not_eq_sym, String.eqb_neq in N. now rewrite N.
  - now rewrite IH.
Qed.

Lemma get_update_other (db db' : Store) (r r' : string) (u : UpdateData) :
  update_doc db r u = Some db' -> r' <> r -> get db' r' = get db r'.
Proof.
  unfold update_doc. destruct (exists_doc db r); [|discriminate].
  intros [= <-] N.
  rewrite (get_map_ref
             (fun d => if ref d =? r
                       then mkDoc (ref d) (merge (data d) u) else d)).
  2:{ intros d. now destruct (ref d =? r). }
  destruct (get db r') as [t|]; [|reflexivity]. cbn [option_map ref].
  apply String.eqb_neq in N. now rewrite N.
Qed.






(* ------------------------------------------------------------------ *)
(** ** The scheduled jobs write the status only *)

Lemma status_batch_updates (st : TaskStatus) (refs : list string) :
  Forall is_status_update (status_batch st refs).
Proof.
  unfold status_batch. apply Forall_map, Forall_forall. intros r _.
  now exists r, st.
Qed.

Lemma archiveBatch_status_batch (now : Z) (db : Store) :
  archiveBatch now db
  = status_batch ARCHIVE (map ref (staleTasksQuery now db)).
Proof. unfold archiveBatch, status_batch. now rewrite map_map. Qed.

Lemma status_changed_only_trans (d1 d2 d3 : QueryDocumentSnapshot) :
  status_changed_only d1 d2 -> status_changed_only d2 d3 ->
  status_changed_only d1 d3.
Proof.
  unfold status_changed_only, same_but_status.
  intros (R1 & A1 & B1 & C1 & D1 & E1 & F1 & G1 & H1 & I1)
         (R2 & A2 & B2 & C2 & D2 & E2 & F2 & G2 & H2 & I2).
  repeat split; congruence.
Qed.

Lemma touch_status_only (refs : list string) (st : TaskStatus)
  (d : QueryDocumentSnapshot) :
  status_changed_only d (touch refs st d).
Proof.
  unfold touch. destruct (existsb (String.eqb (ref d)) refs);
    repeat split.
Qed.

Lemma Forall2_map_pointwise {A B : Type} (R : A -> B -> Prop) (f : A -> B)
  (l : list A) :
  (forall a, R a (f a)) -> Forall2 R l (map f l).
Proof.
  intros H. induction l as [|a l IH]; simpl; constructor; auto.
Qed.

Lemma get_touch_other (refs : list string) (st : TaskStatus) (db : Store)
  (r : string) :
  ~ In r refs -> get (map (touch refs st) db) r = get db r.
Proof.
  intros N. rewrite get_map_ref by apply ref_touch.
  destruct (get db r) as [t|]; [|reflexivity]. cbn [option_map].
  now rewrite touch_notin.
Qed.

(** C10: every write of the triage and of the archiver is an update of
    the status alone; after a run each document is where it was, with the
    same reference and the same fields but [status]; and a document that
    no batch of the run addresses has the data it had. *)
Theorem scheduled_jobs_write_status_only (limits : WipLimits) (now : Z)
  (db : Store) :
  (Forall is_status_update (batch1 db)
   /\ (forall db1 batch, batch2 limits db1 = Some batch ->
                         Forall is_status_update batch)
   /\ Forall is_status_update (archiveBatch now db))
  /\ Forall2 status_changed_only db (dailyTriage limits db)
  /\ Forall2 status_changed_only db (archiveOldTasks now db)
  /\ (forall r,
        ~ In r (written_refs (batch1 db)) ->
        (forall db1 batch,
           commit db (batch1 db) = Some db1 ->
           batch2 limits db1 = Some batch ->
           ~ In r (written_refs batch)) ->
        get (dailyTriage limits db) r = get db r)
  /\ (forall r,
        ~ In r (written_refs (archiveBatch now db)) ->
        get (archiveOldTasks now db) r = get db r).
Proof.
  destruct (dailyTriage_touch limits db) as [C1 E]. cbv zeta in C1, E.
  split; [|split; [|split; [|split]]].
  - split; [|split].
    + rewrite batch1_status_batch. apply status_batch_updates.
    + intros db1 batch Eb.
      destruct (batch2_Some limits db1 batch Eb) as (_ & -> & _).
      apply status_batch_updates.
    + rewrite archiveBatch_status_batch. apply status_batch_updates.
  - rewrite E, map_map. apply Forall2_map_pointwise. intros d.
    eapply status_changed_only_trans; apply touch_status_only.
  - rewrite archiveOldTasks_touch. apply Forall2_map_pointwise.
    intros d. apply touch_status_only.
  - intros r N1 N2.
    rewrite batch1_status_batch, written_refs_status_batch in N1.
    rewrite E, !get_touch_other; [reflexivity|exact N1|].
    unfold promotedRefs, promotes.
    destruct (batch2 limits _) as [b|] eqn:Eb; [|intros []].
    destruct (forallb _ (written_refs b)); [|intros []].
    specialize (N2 _ b C1 Eb).
    destruct (batch2_Some limits _ b Eb) as (_ & -> & _).
    now rewrite written_refs_status_batch in N2.
  - intros r N.
    rewrite archiveBatch_status_batch, written_refs_status_batch in N.
    rewrite archiveOldTasks_touch. now apply get_touch_other.
Qed.

(* ------------------------------------------------------------------ *)
(** ** Further properties of the admission triggers *)

Lemma process_admission_eq (limits : WipLimits) (now : Z) (db : Store)
  (ev : TaskEvent) :
  store_wf db -> delivered db ev -> is_admission ev ->
  process limits now db ev
  = Some (if checkWipLimits limits (written db ev)
               (owner (event_task ev)) (priority (event_task ev))
          then db else written db ev).
Proof.
  intros Hwf Hdel Hadm. unfold process.
  destruct ev as [snap|c];
    cbn [written handler delivered is_admission event_task] in *.
  - unfold enforceWipOnCreate. rewrite Hadm. cbn [status_eqb negb].
    destruct (checkWipLimits limits (db ++ [snap]) (owner (data snap))
                (priority (data snap))); cbn [run apply_write];
      [|reflexivity].
    now rewrite (delete_doc_last db snap Hdel).
  - destruct Hadm as [Hb Ha]. unfold enforceWipOnUpdate, recordCompletion.
    rewrite Ha. cbn [status_eqb andb]. rewrite andb_false_r, app_nil_r.
    unfold admissionOnUpdate. rewrite Ha.
    apply status_eqb_neq in Hb. rewrite Hb. cbn [status_eqb negb andb].
    destruct (checkWipLimits limits (set_doc db (change_ref c) (after c))
                (owner (after c)) (priority (after c)));
      cbn [run apply_write]; [|reflexivity].
    now rewrite (set_doc_revert db _ _ _ Hwf Hdel).
Qed.

Lemma activeCount_written (db : Store) (ev : TaskEvent) (u : string)
  (p : Priority) :
  store_wf db -> delivered db ev -> is_admission ev ->
  activeCount (written db ev) u p
  = activeCount db u p + b2n (counts u p (event_task ev)).
Proof.
  intros Hwf Hdel Hadm.
  destruct ev as [snap|c];
    cbn [written delivered is_admission event_task] in *.
  - rewrite activeCount_app, activeCount_cons.
    replace (activeCount [] u p) with 0 by reflexivity. lia.
  - destruct Hadm as [Hb Ha].
    pose proof (activeCount_set_doc db _ (after c) _ u p Hwf Hdel) as E.
    rewrite (counts_not_today u p _ Hb) in E. simpl in E. lia.
Qed.

Lemma counts_self (t : Task) :
  status t = TODAY -> counts (owner t) (priority t) t = true.
Proof. intros H. apply counts_true. tauto. Qed.

Lemma event_task_today (ev : TaskEvent) :
  is_admission ev -> status (event_task ev) = TODAY.
Proof. destruct ev; simpl; tauto. Qed.

(** X1: an admission event of priority P1 or P2 is rolled back exactly
    when the owner already had at least [limit - 1] such tasks in [TODAY]
    before the write, and one of priority P3 or P4 never; a rolled-back
    admission leaves the collection exactly as it was before the write,
    an accepted one leaves the collection with the write in it. *)
Theorem admission_outcome (limits : WipLimits) (now : Z) (db : Store)
  (ev : TaskEvent) :
  store_wf db -> delivered db ev -> is_admission ev ->
  let t := event_task ev in
  let full := (limit_of limits (priority t)
               <=? activeCount db (owner t) (priority t) + 1)%nat in
  let constrained := priority_eqb (priority t) P1
                     || priority_eqb (priority t) P2 in
  process limits now db ev
  = Some (if constrained && full then db else written db ev).
Proof.
  intros Hwf Hdel Hadm t full constrained.
  rewrite (process_admission_eq limits now db ev Hwf Hdel Hadm). fold t.
  replace (checkWipLimits limits (written db ev) (owner t) (priority t))
    with (constrained && full); [reflexivity|].
  symmetry. apply eq_true_iff_eq. rewrite checkWipLimits_iff.
  rewrite (activeCount_written db ev _ _ Hwf Hdel Hadm). fold t.
  rewrite (counts_self t (event_task_today ev Hadm)).
  unfold constrained, full.
  rewrite andb_true_iff, orb_true_iff, !priority_eqb_eq, Nat.leb_le.
  simpl. tauto.
Qed.

Lemma admission_outcome_witness :
  let t1 := task "t1" "u" P1 TODAY 1 in
  let t2 := task "t2" "u" P1 TODAY 2 in
  let q3 := task "t3" "u" P1 BACKLOG 3 in
  let a3 := task "t3" "u" P1 TODAY 3 in
  let ev := OnUpdate (mkChange "t3" (data q3) (data a3)) in
  (store_wf [t1; t2; q3] /\ delivered [t1; t2; q3] ev /\ is_admission ev)
  /\ process DEFAULT_WIP_LIMITS 0 [t1; t2; q3] ev = Some [t1; t2; q3]
  /\ process DEFAULT_WIP_LIMITS 0 [t1; q3] ev = Some [t1; a3].
Proof.
  assert (A : is_admission
                (OnUpdate (mkChange "t3" (data (task "t3" "u" P1 BACKLOG 3))
                             (data (task "t3" "u" P1 TODAY 3)))))
    by (split; [discriminate|reflexivity]).
  assert (W1 : store_wf [task "t1" "u" P1 TODAY 1; task "t2" "u" P1 TODAY 2;
                         task "t3" "u" P1 BACKLOG 3]) by solve_wf.
  assert (W2 : store_wf [task "t1" "u" P1 TODAY 1;
                         task "t3" "u" P1 BACKLOG 3]) by solve_wf.
  split; [repeat split; [exact W1|discriminate]|]. split.
  - apply (admission_outcome DEFAULT_WIP_LIMITS 0
             [task "t1" "u" P1 TODAY 1; task "t2" "u" P1 TODAY 2;
              task "t3" "u" P1 BACKLOG 3]
             (OnUpdate (mkChange "t3" (data (task "t3" "u" P1 BACKLOG 3))
                          (data (task "t3" "u" P1 TODAY 3))))
             W1 eq_refl A).
  - apply (admission_outcome DEFAULT_WIP_LIMITS 0
             [task "t1" "u" P1 TODAY 1; task "t3" "u" P1 BACKLOG 3]
             (OnUpdate (mkChange "t3" (data (task "t3" "u" P1 BACKLOG 3))
                          (data (task "t3" "u" P1 TODAY 3))))
             W2 eq_refl A).
Defined.

Lemma handler_cases (limits : WipLimits) (now : Z) (db : Store)
  (ev : TaskEvent) :
  handler limits now db ev = []
  \/ handler limits now db ev = [Delete (event_ref ev)]
  \/ (exists t, handler limits now db ev = [SetDoc (event_ref ev) t])
  \/ (exists u, handler limits now db ev = [Update (event_ref ev) u]).
Proof.
  destruct ev as [snap|c]; cbn [handler event_ref].
  - unfold enforceWipOnCreate.
    destruct (negb (status_eqb (status (data snap)) TODAY)); [now left|].
    destruct (checkWipLimits limits db (owner (data snap))
                (priority (data snap))); [right; now left|now left].
  - unfold enforceWipOnUpdate, admissionOnUpdate, recordCompletion.
    destruct (status (after c)); cbn [status_eqb andb];
      rewrite ?andb_false_r, ?andb_true_r; cbn [app]; try now left.
    + destruct (negb (status_eqb (status (before c)) TODAY)); [|now left].
      destruct (checkWipLimits limits db (owner (after c))
                  (priority (after c))); [|now left].
      right; right; left. now eexists.
    + destruct (negb (status_eqb (status (before c)) DONE)); [|now left].
      right; right; right. now eexists.
Qed.

(** X2: a trigger issues at most one write, and that write addresses the
    document of the event; when its run ends, every other document of the
    collection is as it was. *)
Theorem triggers_write_event_document_only (limits : WipLimits) (now : Z)
  (db : Store) (ev : TaskEvent) :
  (written_refs (handler limits now db ev) = []
   \/ written_refs (handler limits now db ev) = [event_ref ev])
  /\ forall db', run db (handler limits now db ev) = Some db' ->
       forall r, r <> event_ref ev -> get db' r = get db r.
Proof.
  destruct (handler_cases limits now db ev)
    as [E|[E|[(t & E)|(u & E)]]]; rewrite E; cbn [written_refs map run
                                                  apply_write];
    (split; [tauto|]).
  - now intros db' [= <-].
  - intros db' [= <-] r N. now apply get_delete_other.
  - intros db' [= <-] r N. now apply get_set_doc_other.
  - destruct (update_doc db (event_ref ev) u) as [db1|] eqn:U;
      [|discriminate].
    intros db' [= <-] r N. now apply (get_update_other db db1 _ _ _ U).
Qed.

(** X3: an update of a task that is in [TODAY] before and after it is
    never checked: whatever the limits, the write stays, and when it moves
    the task to another owner or priority the count of [TODAY] tasks of
    the new owner and priority grows by one. *)
Theorem today_edit_bypasses_check (limits : WipLimits) (now : Z) (db : Store)
  (c : Change) :
  store_wf db -> get db (change_ref c) = Some (before c) ->
  status (before c) = TODAY -> status (after c) = TODAY ->
  owner (before c) <> owner (after c)
  \/ priority (before c) <> priority (after c) ->
  process limits now db (OnUpdate c)
  = Some (set_doc db (change_ref c) (after c))
  /\ activeCount (set_doc db (change_ref c) (after c))
       (owner (after c)) (priority (after c))
     = activeCount db (owner (after c)) (priority (after c)) + 1.
Proof.
  intros Hwf G Hb Ha Hne. split.
  - unfold process. cbn [written handler].
    unfold enforceWipOnUpdate, admissionOnUpdate, recordCompletion.
    now rewrite Hb, Ha.
  - pose proof (activeCount_set_doc db _ (after c) _ (owner (after c))
                  (priority (after c)) Hwf G) as E.
    rewrite (counts_self _ Ha) in E.
    replace (counts (owner (after c)) (priority (after c)) (before c))
      with false in E; [simpl in E; lia|].
    symmetry. destruct (counts _ _ (before c)) eqn:Ec; [|reflexivity].
    apply counts_true in Ec. destruct Ec as (Eo & _ & Ep).
    destruct Hne; congruence.
Qed.

Lemma today_edit_bypasses_check_witness :
  let mk := fun i p => task i "u" p TODAY 1 in
  let db := [mk "a" P1; mk "b" P1; mk "c" P1; mk "d" P3] in
  let c := mkChange "d" (data (mk "d" P3)) (data (mk "d" P1)) in
  store_wf db
  /\ process DEFAULT_WIP_LIMITS 0 db (OnUpdate c)
     = Some [mk "a" P1; mk "b" P1; mk "c" P1; mk "d" P1]
  /\ activeCount (set_doc db "d" (data (mk "d" P1))) "u" P1
     = activeCount db "u" P1 + 1.
Proof.
  assert (W : store_wf [task "a" "u" P1 TODAY 1; task "b" "u" P1 TODAY 1;
                        task "c" "u" P1 TODAY 1; task "d" "u" P3 TODAY 1])
    by solve_wf.
  split; [exact W|].
  apply (today_edit_bypasses_check DEFAULT_WIP_LIMITS 0
           [task "a" "u" P1 TODAY 1; task "b" "u" P1 TODAY 1;
            task "c" "u" P1 TODAY 1; task "d" "u" P3 TODAY 1]
           (mkChange "d" (data (task "d" "u" P3 TODAY 1))
              (data (task "d" "u" P1 TODAY 1))) W);
    try reflexivity.
  right. discriminate.
Defined.

Lemma delete_doc_idem (db : Store) (r : string) :
  delete_doc (delete_doc db r) r = delete_doc db r.
Proof.
  unfold delete_doc. induction db as [|x db IH]; [reflexivity|].
  cbn [filter]. destruct (negb (ref x =? r)) eqn:E; [|exact IH].
  cbn [filter]. now rewrite E, IH.
Qed.

Lemma set_doc_idem (db : Store) (r : string) (t : Task) :
  set_doc (set_doc db r t) r t = set_doc db r t.
Proof.
  assert (E : exists_doc (set_doc db r t) r = true)
    by (eapply get_exists_doc, get_set_doc_same).
  rewrite (set_doc_unfold (set_doc db r t)), E, set_doc_unfold.
  destruct (exists_doc db r) eqn:Ex.
  - rewrite map_map. apply map_ext. intros d.
    destruct (ref d =? r) eqn:Ed.
    + rewrite (replace_doc_hit _ _ _ Ed). apply replace_doc_hit.
      apply String.eqb_refl.
    + rewrite (replace_doc_miss _ _ _ Ed). now apply replace_doc_miss.
  - rewrite map_app, replace_absent.
    + cbn [map]. now rewrite replace_doc_hit by apply String.eqb_refl.
    + rewrite <- exists_doc_In. congruence.
Qed.

(** X4: an admission event delivered a second time changes nothing: the
    run of the trigger on the collection left by its first run ends in
    that same collection, whether the first run rolled the write back or
    not. *)
Theorem admission_redelivery (limits : WipLimits) (now now' : Z)
  (db : Store) (ev : TaskEvent) :
  is_admission ev ->
  exists db1, run db (handler limits now db ev) = Some db1
              /\ run db1 (handler limits now' db1 ev) = Some db1.
Proof.
  intros Hadm. destruct ev as [snap|c]; cbn [handler is_admission] in *.
  - unfold enforceWipOnCreate. rewrite Hadm. cbn [status_eqb negb].
    destruct (checkWipLimits limits db (owner (data snap))
                (priority (data snap))) eqn:C; cbn [run apply_write].
    + eexists. split; [reflexivity|].
      destruct (checkWipLimits limits (delete_doc db (ref snap))
                  (owner (data snap)) (priority (data snap)));
        cbn [run apply_write]; [|reflexivity].
      now rewrite delete_doc_idem.
    + exists db. split; [reflexivity|]. now rewrite C.
  - destruct Hadm as [Hb Ha].
    unfold enforceWipOnUpdate, admissionOnUpdate, recordCompletion.
    rewrite Ha. apply status_eqb_neq in Hb. rewrite Hb.
    cbn [status_eqb negb andb]. rewrite andb_false_r, !app_nil_r.
    destruct (checkWipLimits limits db (owner (after c))
                (priority (after c))) eqn:C; cbn [run apply_write].
    + eexists. split; [reflexivity|].
      destruct (checkWipLimits limits (set_doc db (change_ref c) (before c))
                  (owner (after c)) (priority (after c)));
        cbn [app run apply_write]; [|reflexivity].
      now rewrite set_doc_idem.
    + exists db. split; [reflexivity|]. now rewrite C.
Qed.

Lemma admission_redelivery_witness :
  let t1 := task "t1" "u" P1 TODAY 1 in
  let t2 := task "t2" "u" P1 TODAY 2 in
  let t3 := task "t3" "u" P1 TODAY 3 in
  is_admission (OnCreate t3)
  /\ exists db1,
       run [t1; t2; t3]
         (handler DEFAULT_WIP_LIMITS 0 [t1; t2; t3] (OnCreate t3)) = Some db1
       /\ run db1 (handler DEFAULT_WIP_LIMITS 5 db1 (OnCreate t3)) = Some db1.
Proof.
  split; [reflexivity|].
  apply (admission_redelivery DEFAULT_WIP_LIMITS 0 5
           [task "t1" "u" P1 TODAY 1; task "t2" "u" P1 TODAY 2;
            task "t3" "u" P1 TODAY 3]
           (OnCreate (task "t3" "u" P1 TODAY 3))).
  reflexivity.
Defined.

(** X5: the writes of [enforceWipOnUpdate] do not set it going in a loop.
    On the update event that one of its own writes raises, it never
    reverts; it stamps [completedOn] once more exactly when that write was
    the revert of a move out of [DONE]; and on the event of that stamp it
    issues nothing. *)
Theorem own_writes_raise_no_revert (limits : WipLimits) (db : Store)
  (now : Z) (c : Change) (w : WriteOp) :
  In w (enforceWipOnUpdate limits db now (Some c)) ->
  forall db1 now1,
    admissionOnUpdate limits db1 (feedback c w) = []
    /\ enforceWipOnUpdate limits db1 now1 (Some (feedback c w))
       = match w with
         | SetDoc r t =>
             if status_eqb (status t) DONE
             then [Update r (completedOn_only now1)] else []
         | _ => []
         end
    /\ forall w1,
         In w1 (enforceWipOnUpdate limits db1 now1 (Some (feedback c w))) ->
         forall db2 now2,
           enforceWipOnUpdate limits db2 now2 (Some (feedback (feedback c w) w1))
           = [].
Proof.
  intros Hw db1 now1. unfold enforceWipOnUpdate in Hw.
  apply in_app_or in Hw. destruct Hw as [Hw|Hw].
  - unfold admissionOnUpdate in Hw.
    destruct (status_eqb (status (after c)) TODAY) eqn:Ea;
      [|rewrite andb_false_r in Hw; destruct Hw].
    destruct (negb (status_eqb (status (before c)) TODAY)); [|destruct Hw].
    destruct (checkWipLimits limits db (owner (after c))
                (priority (after c))); [|destruct Hw].
    destruct Hw as [<-|[]]. cbn [feedback].
    assert (A : forall dbx, admissionOnUpdate limits dbx
                  (mkChange (change_ref c) (after c) (before c)) = []).
    { intros dbx. unfold admissionOnUpdate. cbn [before after].
      now rewrite Ea. }
    apply status_eqb_eq in Ea.
    assert (E : enforceWipOnUpdate limits db1 now1
                  (Some (mkChange (change_ref c) (after c) (before c)))
                = if status_eqb (status (before c)) DONE
                  then [Update (change_ref c) (completedOn_only now1)]
                  else []).
    { unfold enforceWipOnUpdate. rewrite A. unfold recordCompletion.
      cbn [before after change_ref app]. rewrite Ea.
      cbn [status_eqb negb andb].
      now destruct (status_eqb (status (before c)) DONE). }
    split; [apply A|]. split; [exact E|].
    intros w1 Hw1 db2 now2. rewrite E in Hw1.
    destruct (status_eqb (status (before c)) DONE) eqn:Ed; [|destruct Hw1].
    destruct Hw1 as [<-|[]]. apply status_eqb_eq in Ed.
    unfold enforceWipOnUpdate, admissionOnUpdate, recordCompletion.
    cbn [feedback before after merge completedOn_only upd_status status].
    now rewrite Ed.
  - unfold recordCompletion in Hw.
    destruct (status_eqb (status (after c)) DONE) eqn:Ea;
      [|rewrite andb_false_r in Hw; destruct Hw].
    destruct (negb (status_eqb (status (before c)) DONE)); [|destruct Hw].
    destruct Hw as [<-|[]]. apply status_eqb_eq in Ea.
    assert (E : forall dbx nowx,
               enforceWipOnUpdate limits dbx nowx
                 (Some (feedback c (Update (change_ref c)
                                      (completedOn_only now)))) = []).
    { intros dbx nowx.
      unfold enforceWipOnUpdate, admissionOnUpdate, recordCompletion.
      cbn [feedback before after merge completedOn_only upd_status status].
      now rewrite Ea. }
    split; [|split].
    + unfold admissionOnUpdate.
      cbn [feedback before after merge completedOn_only upd_status status].
      now rewrite Ea.
    + apply E.
    + intros w1 Hw1. rewrite E in Hw1. destruct Hw1.
Qed.

Lemma own_writes_raise_no_revert_witness :
  let t1 := task "t1" "u" P1 TODAY 1 in
  let t2 := task "t2" "u" P1 TODAY 2 in
  let t3 := task "t3" "u" P1 TODAY 3 in
  let D := mkTask None "proj" "u" "ship" None P1 DONE 4 None (Some 40%Z) in
  let A := mkTask None "proj" "u" "ship" None P1 TODAY 4 None (Some 40%Z) in
  let db := [t1; t2; t3; mkDoc "t4" A] in
  let c := mkChange "t4" D A in
  In (SetDoc "t4" D) (enforceWipOnUpdate DEFAULT_WIP_LIMITS db 50 (Some c))
  /\ enforceWipOnUpdate DEFAULT_WIP_LIMITS [t1; t2; t3; mkDoc "t4" D] 60
       (Some (feedback c (SetDoc "t4" D)))
     = [Update "t4" (completedOn_only 60)].
Proof.
  split; [now left|].
  apply (own_writes_raise_no_revert DEFAULT_WIP_LIMITS
           [task "t1" "u" P1 TODAY 1; task "t2" "u" P1 TODAY 2;
            task "t3" "u" P1 TODAY 3;
            mkDoc "t4" (mkTask None "proj" "u" "ship" None P1 TODAY 4 None
                          (Some 40%Z))]
           50
           (mkChange "t4"
              (mkTask None "proj" "u" "ship" None P1 DONE 4 None (Some 40%Z))
              (mkTask None "proj" "u" "ship" None P1 TODAY 4 None
                 (Some 40%Z)))
           (SetDoc "t4"
              (mkTask None "proj" "u" "ship" None P1 DONE 4 None
                 (Some 40%Z)))).
  now left.
Defined.

Lemma store_wf_written (db : Store) (ev : TaskEvent) :
  store_wf db -> delivered db ev -> store_wf (written db ev).
Proof.
  unfold store_wf. intros Hwf Hdel.
  destruct ev as [snap|c]; cbn [written delivered] in *.
  - rewrite map_app. cbn [map]. apply get_None_notin in Hdel.
    apply NoDup_rev in Hwf. rewrite <- (rev_involutive (_ ++ _)).
    apply NoDup_rev. rewrite rev_app_distr. cbn [rev app].
    constructor; [|assumption]. now rewrite <- in_rev.
  - rewrite set_doc_unfold, (get_exists_doc _ _ _ Hdel).
    replace (map ref (map (replace_doc (change_ref c) (after c)) db))
      with (map ref db); [assumption|].
    rewrite map_map. apply map_ext. intros d. unfold replace_doc.
    destruct (ref d =? change_ref c) eqn:E; [|reflexivity].
    now apply String.eqb_eq in E.
Qed.

(** X6: along any run of admission events, each processed before the
    next write, a count of [TODAY] tasks of priority P1 or P2 that starts
    within the limit stays within it, and every event is processed to its
    end. *)
Theorem admissions_preserve_cap (limits : WipLimits) (now : Z)
  (evs : list TaskEvent) (db : Store) (u : string) (p : Priority) :
  store_wf db -> (p = P1 \/ p = P2) -> cap_ok limits db u p ->
  admissions limits now db evs ->
  exists db', process_all limits now db evs = Some db'
              /\ store_wf db' /\ cap_ok limits db' u p.
Proof.
  intros Hwf Hp. revert db Hwf.
  induction evs as [|ev evs IH]; intros db Hwf Hcap Hadm.
  - now exists db.
  - cbn [admissions] in Hadm. destruct Hadm as (Hdel & Ha & Hnext).
    cbn [process_all].
    pose proof (process_admission_eq limits now db ev Hwf Hdel Ha) as E.
    rewrite E. specialize (Hnext _ E).
    destruct (checkWipLimits limits (written db ev)
                (owner (event_task ev)) (priority (event_task ev))) eqn:C.
    + now apply IH.
    + apply IH; try assumption.
      * now apply store_wf_written.
      * apply (cap_after_accept limits db _ (event_task ev));
          try assumption.
        now apply activeCount_written.
Qed.

Lemma admissions_preserve_cap_witness :
  let t := fun i => task i "u" P1 TODAY 1 in
  let evs := [OnCreate (t "a"); OnCreate (t "b"); OnCreate (t "c");
              OnCreate (t "d")] in
  (store_wf [] /\ cap_ok DEFAULT_WIP_LIMITS [] "u" P1
   /\ admissions DEFAULT_WIP_LIMITS 0 [] evs)
  /\ exists db', process_all DEFAULT_WIP_LIMITS 0 [] evs = Some db'
                 /\ store_wf db' /\ cap_ok DEFAULT_WIP_LIMITS db' "u" P1.
Proof.
  assert (W : store_wf []) by constructor.
  assert (K : cap_ok DEFAULT_WIP_LIMITS [] "u" P1)
    by (unfold cap_ok; vm_compute; lia).
  assert (A : admissions DEFAULT_WIP_LIMITS 0 []
                [OnCreate (task "a" "u" P1 TODAY 1);
                 OnCreate (task "b" "u" P1 TODAY 1);
                 OnCreate (task "c" "u" P1 TODAY 1);
                 OnCreate (task "d" "u" P1 TODAY 1)]).
  { repeat (split; [reflexivity|split; [reflexivity|]];
            intros ? [= <-]).
    exact I. }
  split; [exact (conj W (conj K A))|].
  apply (admissions_preserve_cap DEFAULT_WIP_LIMITS 0 _ [] "u" P1 W
           (or_introl eq_refl) K A).
Defined.

(* ------------------------------------------------------------------ *)
(** ** Further properties of the triage *)

Lemma NoDup_docs (db : Store) : store_wf db -> NoDup db.
Proof. apply NoDup_map_inv. Qed.

Lemma NoDup_firstn {A : Type} (n : nat) (l : list A) :
  NoDup l -> NoDup (firstn n l).
Proof.
  intros H. rewrite <- (firstn_skipn n l) in H.
  now apply NoDup_app_remove_r in H.
Qed.

Lemma filter_none {A : Type} (f : A -> bool) (l : list A) :
  (forall x, In x l -> f x = false) -> filter f l = [].
Proof.
  induction l as [|a l IH]; intros H; [reflexivity|]. cbn [filter].
  rewrite (H a (or_introl eq_refl)). apply IH. intros x Hx. apply H.
  now right.
Qed.

Lemma NoDup_fifo_queue (db : Store) (u : string) (p : Priority) :
  store_wf db -> NoDup (fifo_queue db u p).
Proof.
  intros Hwf. unfold fifo_queue.
  eapply Permutation_NoDup; [apply orderBy_createdOn_perm|].
  unfold where_. now apply NoDup_filter, NoDup_docs.
Qed.

Lemma promoted_of_queue (limits : WipLimits) (db : Store) (u : string)
  (p : Priority) (d : QueryDocumentSnapshot) :
  p = P1 \/ p = P2 ->
  fifo_promoted limits db d /\ owner (data d) = u /\ priority (data d) = p
  <-> In d (firstn (limit_of limits p) (fifo_queue db u p)).
Proof.
  intros Hp. unfold fifo_promoted. split.
  - intros ([H|H] & <- & <-).
    + pose proof H as H'. apply In_firstn, fifo_queue_In in H'.
      destruct H' as (_ & _ & _ & ->). exact H.
    + pose proof H as H'. apply In_firstn, fifo_queue_In in H'.
      destruct H' as (_ & _ & _ & ->). exact H.
  - intros H. pose proof H as H'. apply In_firstn, fifo_queue_In in H'.
    destruct H' as (_ & _ & <- & <-).
    destruct Hp as [Hp|Hp]; rewrite Hp in *; tauto.
Qed.

Lemma activeCount_demoteToday (db : Store) (u : string) (p : Priority) :
  activeCount (demoteToday db) u p = 0.
Proof.
  unfold activeCount. rewrite currentTasksQuery_counts. unfold where_.
  rewrite filter_none; [reflexivity|]. intros d Hd.
  apply counts_not_today. now apply (In_demoteToday db).
Qed.

Lemma activeCount_dailyTriage (limits : WipLimits) (db : Store) (u : string)
  (p : Priority) :
  store_wf db -> ids_name_no_other db -> p = P1 \/ p = P2 ->
  activeCount (dailyTriage limits db) u p
  = if promotes limits (demoteToday db)
    then Nat.min (limit_of limits p)
           (List.length (fifo_queue (demoteToday db) u p))
    else 0.
Proof.
  intros Hwf Hid Hp.
  pose proof (store_wf_demoteToday db Hwf) as Hwf1.
  pose proof (ids_name_no_other_demoteToday db Hid) as Hid1.
  rewrite (dailyTriage_wf limits db Hwf).
  destruct (promotes limits (demoteToday db)) eqn:Ec.
  2:{ unfold promotedRefs. rewrite Ec, map_touch_nil.
      apply activeCount_demoteToday. }
  unfold activeCount. rewrite currentTasksQuery_counts. unfold where_.
  rewrite filter_map_swap, length_map, <- length_firstn.
  apply Permutation_length, NoDup_Permutation.
  - now apply NoDup_filter, NoDup_docs.
  - now apply NoDup_firstn, NoDup_fifo_queue.
  - intros d. rewrite <- (promoted_of_queue limits _ u p d Hp), filter_In.
    split.
    + intros [Hd Hc].
      destruct (in_dec string_dec (ref d)
                  (promotedRefs limits (demoteToday db))) as [Hin|Hin].
      * rewrite (touch_In _ _ _ Hin) in Hc. apply counts_true in Hc.
        cbn [data merge owner priority] in Hc.
        apply promotedRefs_spec in Hin; try assumption. tauto.
      * rewrite (touch_notin _ _ _ Hin) in Hc. apply counts_true in Hc.
        apply In_demoteToday in Hd. tauto.
    + intros (Hpr & Eo & Ep).
      pose proof (fifo_promoted_inv _ _ _ Hpr) as (Hd & _ & _).
      split; [assumption|].
      rewrite touch_In by (apply promotedRefs_spec; tauto).
      apply counts_true. cbn [data merge owner priority status status_only
                               upd_status]. tauto.
Qed.

(** X7: on a collection where no task's [id] names another document,
    after a triage run an owner's count of [TODAY] tasks of priority P1
    (P2) is, when the promotion was committed, the smaller of the limit
    and the number of the owner's P1 (P2) tasks that were in [TODAY] or
    [BACKLOG], and 0 when the promotion threw or was rejected (as it is
    on the documents of the application); so it is within the limit
    whatever it was before; and no P3 or P4 task is in [TODAY]. *)
Theorem dailyTriage_establishes_cap (limits : WipLimits) (db : Store)
  (u : string) (p : Priority) :
  store_wf db -> ids_name_no_other db ->
  activeCount (dailyTriage limits db) u p
  = (if promotes limits (demoteToday db)
        && (priority_eqb p P1 || priority_eqb p P2)
     then Nat.min (limit_of limits p)
            (List.length (fifo_queue (demoteToday db) u p))
     else 0)
  /\ (p = P1 \/ p = P2 -> cap_ok limits (dailyTriage limits db) u p).
Proof.
  intros Hwf Hid.
  pose proof (store_wf_demoteToday db Hwf) as Hwf1.
  pose proof (ids_name_no_other_demoteToday db Hid) as Hid1.
  split.
  - destruct (priority_eqb p P1 || priority_eqb p P2) eqn:E.
    + rewrite andb_true_r. apply activeCount_dailyTriage; try assumption.
      apply orb_true_iff in E. now rewrite !priority_eqb_eq in E.
    + rewrite andb_false_r, (dailyTriage_wf limits db Hwf).
      unfold activeCount. rewrite currentTasksQuery_counts. unfold where_.
      rewrite filter_map_swap, length_map.
      rewrite filter_none; [reflexivity|]. intros d Hd.
      destruct (counts u p (data (touch _ TODAY d))) eqn:Hc; [|reflexivity].
      exfalso. apply counts_true in Hc.
      destruct (in_dec string_dec (ref d)
                  (promotedRefs limits (demoteToday db))) as [Hin|Hin].
      * rewrite (touch_In _ _ _ Hin) in Hc.
        cbn [data merge priority] in Hc.
        apply promotedRefs_spec in Hin; try assumption.
        destruct Hin as [_ Hin]. apply fifo_promoted_inv in Hin.
        destruct Hc as (_ & _ & <-), Hin as (_ & _ & [Hq|Hq]);
          rewrite Hq in E; discriminate.
      * rewrite (touch_notin _ _ _ Hin) in Hc.
        apply In_demoteToday in Hd. tauto.
  - intros Hp. unfold cap_ok.
    rewrite (activeCount_dailyTriage limits db u p Hwf Hid Hp).
    destruct (promotes limits (demoteToday db)); lia.
Qed.

Lemma dailyTriage_establishes_cap_witness :
  let db := [pageTask "a" "u" P1 TODAY 5; pageTask "b" "u" P1 TODAY 4;
             pageTask "c" "u" P1 TODAY 3; pageTask "d" "u" P1 TODAY 2;
             pageTask "e" "u" P1 TODAY 1] in
  let db' := [task "a" "u" P1 TODAY 5; task "b" "u" P1 TODAY 4;
              task "c" "u" P1 TODAY 3; task "d" "u" P1 TODAY 2;
              task "e" "u" P1 TODAY 1] in
  (store_wf db /\ ids_name_no_other db
   /\ store_wf db' /\ ids_name_no_other db')
  /\ activeCount db "u" P1 = 5
  /\ activeCount (dailyTriage DEFAULT_WIP_LIMITS db) "u" P1 = 0
  /\ cap_ok DEFAULT_WIP_LIMITS (dailyTriage DEFAULT_WIP_LIMITS db) "u" P1
  /\ activeCount (dailyTriage DEFAULT_WIP_LIMITS db') "u" P1 = 3
  /\ cap_ok DEFAULT_WIP_LIMITS (dailyTriage DEFAULT_WIP_LIMITS db') "u" P1.
Proof.
  assert (W : store_wf [pageTask "a" "u" P1 TODAY 5;
                        pageTask "b" "u" P1 TODAY 4;
                        pageTask "c" "u" P1 TODAY 3;
                        pageTask "d" "u" P1 TODAY 2;
                        pageTask "e" "u" P1 TODAY 1]) by solve_wf.
  assert (M : ids_name_no_other [pageTask "a" "u" P1 TODAY 5;
                                 pageTask "b" "u" P1 TODAY 4;
                                 pageTask "c" "u" P1 TODAY 3;
                                 pageTask "d" "u" P1 TODAY 2;
                                 pageTask "e" "u" P1 TODAY 1]) by solve_ids.
  assert (W' : store_wf [task "a" "u" P1 TODAY 5; task "b" "u" P1 TODAY 4;
                         task "c" "u" P1 TODAY 3; task "d" "u" P1 TODAY 2;
                         task "e" "u" P1 TODAY 1]) by solve_wf.
  assert (M' : ids_name_no_other [task "a" "u" P1 TODAY 5;
                                  task "b" "u" P1 TODAY 4;
                                  task "c" "u" P1 TODAY 3;
                                  task "d" "u" P1 TODAY 2;
                                  task "e" "u" P1 TODAY 1]) by solve_ids.
  split; [exact (conj W (conj M (conj W' M')))|]. split; [reflexivity|].
  pose proof (dailyTriage_establishes_cap DEFAULT_WIP_LIMITS _ "u" P1 W M)
    as [E K].
  pose proof (dailyTriage_establishes_cap DEFAULT_WIP_LIMITS _ "u" P1 W' M')
    as [E' K'].
  split; [exact E|]. split; [apply K; now left|].
  split; [exact E'|]. apply K'. now left.
Defined.



(** X9: the promotion batch addresses documents by the [id] field of the
    task data.  When one task picked for promotion carries no [id], or an
    [id] that is the reference of no document, nothing of the batch is
    written and the run ends with every [TODAY] task in [BACKLOG] and
    nothing promoted, for any owner. *)
Theorem dailyTriage_dangling_id (limits : WipLimits) (db : Store)
  (t : Task) :
  store_wf db ->
  In t (promotedTasks limits (demoteToday db)) ->
  (forall r, id t = Some r -> ~ In r (map ref db)) ->
  dailyTriage limits db = demoteToday db
  /\ forall u p, activeCount (dailyTriage limits db) u p = 0.
Proof.
  intros Hwf Ht Hid.
  assert (E : dailyTriage limits db = demoteToday db).
  { rewrite (dailyTriage_wf limits db Hwf). unfold promotedRefs.
    destruct (promotes limits (demoteToday db)) eqn:Ec;
      [|apply map_touch_nil].
    exfalso. destruct (promotes_true limits _ Ec) as (_ & Hex).
    destruct (Hex t Ht) as (r & Er & Hr).
    rewrite map_ref_demoteToday in Hr. now apply (Hid r). }
  split; [exact E|]. intros u p. rewrite E. apply activeCount_demoteToday.
Qed.

Lemma dailyTriage_dangling_id_witness :
  let stray := mkDoc "x" (mkTask (Some "gone") "proj" "v" "stray" None P2
                            BACKLOG 7 None None) in
  let db := [task "a" "u" P1 TODAY 1; task "b" "u" P1 BACKLOG 2; stray] in
  let db' := [pageTask "a" "u" P1 TODAY 1; pageTask "b" "u" P1 BACKLOG 2] in
  (store_wf db
   /\ In (data stray) (promotedTasks DEFAULT_WIP_LIMITS (demoteToday db))
   /\ (forall r, id (data stray) = Some r -> ~ In r (map ref db)))
  /\ (store_wf db'
      /\ In (data (pageTask "b" "u" P1 BACKLOG 2))
           (promotedTasks DEFAULT_WIP_LIMITS (demoteToday db'))
      /\ (forall r, id (data (pageTask "b" "u" P1 BACKLOG 2)) = Some r ->
                    ~ In r (map ref db')))
  /\ statuses (dailyTriage DEFAULT_WIP_LIMITS db)
     = [("a", BACKLOG); ("b", BACKLOG); ("x", BACKLOG)]
  /\ statuses (dailyTriage DEFAULT_WIP_LIMITS db')
     = [("a", BACKLOG); ("b", BACKLOG)].
Proof.
  assert (W : store_wf [task "a" "u" P1 TODAY 1; task "b" "u" P1 BACKLOG 2;
                        mkDoc "x" (mkTask (Some "gone") "proj" "v" "stray"
                                     None P2 BACKLOG 7 None None)])
    by solve_wf.
  assert (P : In (mkTask (Some "gone") "proj" "v" "stray" None P2 BACKLOG 7
                    None None)
                (promotedTasks DEFAULT_WIP_LIMITS
                   (demoteToday
                      [task "a" "u" P1 TODAY 1; task "b" "u" P1 BACKLOG 2;
                       mkDoc "x" (mkTask (Some "gone") "proj" "v" "stray"
                                    None P2 BACKLOG 7 None None)])))
    by (vm_compute; tauto).
  assert (N : forall r,
             id (mkTask (Some "gone") "proj" "v" "stray" None P2 BACKLOG 7
                   None None) = Some r ->
             ~ In r (map ref
                       [task "a" "u" P1 TODAY 1; task "b" "u" P1 BACKLOG 2;
                        mkDoc "x" (mkTask (Some "gone") "proj" "v" "stray"
                                     None P2 BACKLOG 7 None None)]))
    by (intros r [= <-]; simpl; intuition discriminate).
  assert (W' : store_wf [pageTask "a" "u" P1 TODAY 1;
                         pageTask "b" "u" P1 BACKLOG 2]) by solve_wf.
  assert (P' : In (data (pageTask "b" "u" P1 BACKLOG 2))
                 (promotedTasks DEFAULT_WIP_LIMITS
                    (demoteToday [pageTask "a" "u" P1 TODAY 1;
                                  pageTask "b" "u" P1 BACKLOG 2])))
    by (vm_compute; tauto).
  assert (N' : forall r,
             id (data (pageTask "b" "u" P1 BACKLOG 2)) = Some r ->
             ~ In r (map ref [pageTask "a" "u" P1 TODAY 1;
                              pageTask "b" "u" P1 BACKLOG 2]))
    by (intros r E; discriminate E).
  split; [exact (conj W (conj P N))|].
  split; [exact (conj W' (conj P' N'))|]. split.
  - rewrite (proj1 (dailyTriage_dangling_id DEFAULT_WIP_LIMITS _ _ W P N)).
    reflexivity.
  - rewrite (proj1 (dailyTriage_dangling_id DEFAULT_WIP_LIMITS _ _ W' P' N')).
    reflexivity.
Defined.

Lemma demoteToday_idem (db : Store) :
  demoteToday (demoteToday db) = demoteToday db.
Proof.
  unfold demoteToday. rewrite map_map. apply map_ext. intros d.
  destruct (status_eqb (status (data d)) TODAY) eqn:E; [reflexivity|].
  now rewrite E.
Qed.

(** X10: the triage gives no precedence to the tasks that were in
    [TODAY]: two collections that are equal once their [TODAY] tasks are
    put in [BACKLOG] are triaged to the same collection, so a task keeps
    its place in [TODAY] only by its age. *)
Theorem dailyTriage_forgets_today (limits : WipLimits) (db db' : Store) :
  store_wf db -> store_wf db' ->
  demoteToday db = demoteToday db' ->
  dailyTriage limits db = dailyTriage limits db'
  /\ dailyTriage limits (demoteToday db) = dailyTriage limits db.
Proof.
  intros Hwf Hwf' E. split.
  - now rewrite !dailyTriage_wf, E.
  - rewrite !dailyTriage_wf, demoteToday_idem; try assumption;
      [reflexivity|now apply store_wf_demoteToday].
Qed.

Lemma dailyTriage_forgets_today_witness :
  let db := [task "a" "u" P1 TODAY 9; task "b" "u" P1 BACKLOG 1] in
  let db' := [task "a" "u" P1 BACKLOG 9; task "b" "u" P1 TODAY 1] in
  let one := mkWipLimits 1 5 in
  (store_wf db /\ store_wf db' /\ demoteToday db = demoteToday db')
  /\ statuses (dailyTriage one db) = [("a", BACKLOG); ("b", TODAY)]
  /\ dailyTriage one db = dailyTriage one db'
  /\ dailyTriage one (demoteToday db) = dailyTriage one db.
Proof.
  assert (W : store_wf [task "a" "u" P1 TODAY 9; task "b" "u" P1 BACKLOG 1])
    by solve_wf.
  assert (W' : store_wf [task "a" "u" P1 BACKLOG 9; task "b" "u" P1 TODAY 1])
    by solve_wf.
  split; [exact (conj W (conj W' eq_refl))|].
  split; [reflexivity|].
  exact (dailyTriage_forgets_today (mkWipLimits 1 5) _ _ W W' eq_refl).
Defined.

(** X11: the grouping loop of the triage throws exactly when a task of
    the query has an owner named like a member of [Object.prototype].
    Otherwise it yields one entry per owner met, no owner twice; the
    tasks of an entry are exactly that owner's tasks, in the order of the
    query, and there is at least one; every task of the query is in the
    entry of its owner; and [Object.entries] lists exactly these
    entries. *)
Theorem groupByUser_partition (docs : list QueryDocumentSnapshot) :
  (groupByUser docs = None
   <-> exists d, In d docs /\ inherited (owner (data d)) = true)
  /\ forall g, groupByUser docs = Some g ->
       NoDup (map fst g)
       /\ (forall u ts, In (u, ts) g ->
             ts = filter (fun t => owner t =? u) (map data docs)
             /\ ts <> [])
       /\ (forall d, In d docs ->
             exists ts, In (owner (data d), ts) g /\ In (data d) ts)
       /\ (forall e, In e (entries g) <-> In e g).
Proof.
  rewrite groupByUser_eq. split.
  - destruct (existsb _ docs) eqn:E.
    + split; [intros _|reflexivity]. apply existsb_exists in E.
      destruct E as (d & Hd & Hi). now exists d.
    + split; [discriminate|]. intros (d & Hd & Hi).
      assert (T : existsb (fun d => inherited (owner (data d))) docs = true)
        by (apply existsb_exists; now exists d).
      congruence.
  - intros g. destruct (existsb _ docs); [discriminate|]. intros [= <-].
    destruct (fold_push_spec (map data docs) [] (NoDup_nil _))
      as (Hn & Ht & Hk).
    split; [exact Hn|]. split; [|split].
    + intros u ts Hin. pose proof (groupsOf_entry _ _ _ Hin) as E.
      split; [exact E|].
      assert (K : In u (map fst (groupsOf (map data docs)))).
      { change u with (fst (u, ts)). now apply in_map. }
      apply Hk in K. destruct K as [[]|K]. apply in_map_iff in K.
      destruct K as (t & Et & Hin').
      assert (In t ts).
      { rewrite E. apply filter_In. split; [assumption|].
        now apply String.eqb_eq. }
      intros ->. contradiction.
    + intros d Hd. eexists. split.
      * apply groupsOf_owner. now apply in_map.
      * apply filter_In. split; [now apply in_map|apply String.eqb_refl].
    + intros e. apply entries_In.
Qed.

(** ** Further properties of the archiver *)

Lemma map_ref_archiveStale (now : Z) (db : Store) :
  map ref (archiveStale now db) = map ref db.
Proof.
  unfold archiveStale. rewrite map_map. apply map_ext. intros d.
  now destruct (status_eqb (status (data d)) BACKLOG
                && (createdOn (data d) <? cutoffDate now)%Z).
Qed.

(** X12: archiver runs compose over time: a run at a time [now1] followed
    by a run at a later time [now2] ends in the collection that a single
    run at [now2] gives. *)
Theorem archiveOldTasks_later_run (now1 now2 : Z) (db : Store) :
  store_wf db -> (now1 <= now2)%Z ->
  archiveOldTasks now2 (archiveOldTasks now1 db) = archiveOldTasks now2 db.
Proof.
  intros Hwf Hle. rewrite (archiveOldTasks_wf now1 db Hwf).
  rewrite archiveOldTasks_wf
    by (unfold store_wf; now rewrite map_ref_archiveStale).
  rewrite (archiveOldTasks_wf now2 db Hwf).
  unfold archiveStale. rewrite map_map. apply map_ext. intros d.
  destruct (status_eqb (status (data d)) BACKLOG) eqn:Es; cbn [andb];
    [|now rewrite Es].
  destruct (createdOn (data d) <? cutoffDate now1)%Z eqn:E1.
  - cbn [data merge status status_only upd_status status_eqb andb].
    apply Z.ltb_lt in E1.
    replace (createdOn (data d) <? cutoffDate now2)%Z with true;
      [reflexivity|].
    symmetry. apply Z.ltb_lt. unfold cutoffDate in *. lia.
  - now rewrite Es.
Qed.

Lemma archiveOldTasks_later_run_witness :
  let day := ms_per_day in
  let db := [task "old" "u" P2 BACKLOG (5 * day);
             task "mid" "u" P2 BACKLOG (50 * day);
             task "new" "u" P2 BACKLOG (100 * day)] in
  (store_wf db /\ (100 * day <= 150 * day)%Z)
  /\ statuses (archiveOldTasks (100 * day) db)
     = [("old", ARCHIVE); ("mid", BACKLOG); ("new", BACKLOG)]
  /\ statuses (archiveOldTasks (150 * day) db)
     = [("old", ARCHIVE); ("mid", ARCHIVE); ("new", BACKLOG)]
  /\ archiveOldTasks (150 * day) (archiveOldTasks (100 * day) db)
     = archiveOldTasks (150 * day) db.
Proof.
  assert (W : store_wf [task "old" "u" P2 BACKLOG (5 * ms_per_day);
                        task "mid" "u" P2 BACKLOG (50 * ms_per_day);
                        task "new" "u" P2 BACKLOG (100 * ms_per_day)])
    by solve_wf.
  assert (L : (100 * ms_per_day <= 150 * ms_per_day)%Z)
    by (unfold ms_per_day; lia).
  split; [exact (conj W L)|]. split; [reflexivity|]. split; [reflexivity|].
  exact (archiveOldTasks_later_run _ _ _ W L).
Defined.

(** X13: the archiver has no part in the WIP counts: for every owner and
    priority the count of [TODAY] tasks is the same after a run, so a
    count within the limit stays within it. *)
Theorem archiveOldTasks_keeps_counts (limits : WipLimits) (now : Z)
  (db : Store) (u : string) (p : Priority) :
  store_wf db ->
  activeCount (archiveOldTasks now db) u p = activeCount db u p
  /\ (cap_ok limits db u p -> cap_ok limits (archiveOldTasks now db) u p).
Proof.
  intros Hwf.
  assert (E : activeCount (archiveOldTasks now db) u p = activeCount db u p).
  { rewrite (archiveOldTasks_wf now db Hwf).
    unfold activeCount. rewrite !currentTasksQuery_counts.
    unfold where_, archiveStale. rewrite filter_map_swap, length_map.
    f_equal. apply filter_ext. intros d.
    destruct (status_eqb (status (data d)) BACKLOG) eqn:Es; cbn [andb];
      [|reflexivity].
    destruct (createdOn (data d) <? cutoffDate now)%Z; [|reflexivity].
    apply status_eqb_eq in Es. unfold counts.
    cbn [data merge status status_only upd_status]. rewrite Es.
    cbn [status_eqb]. now rewrite !andb_false_r. }
  split; [exact E|]. unfold cap_ok. now rewrite E.
Qed.

Lemma archiveOldTasks_keeps_counts_witness :
  let day := ms_per_day in
  let db := [task "old" "u" P1 BACKLOG (5 * day);
             task "busy" "u" P1 TODAY (6 * day)] in
  store_wf db
  /\ statuses (archiveOldTasks (200 * day) db)
     = [("old", ARCHIVE); ("busy", TODAY)]
  /\ activeCount (archiveOldTasks (200 * day) db) "u" P1
     = activeCount db "u" P1.
Proof.
  assert (W : store_wf [task "old" "u" P1 BACKLOG (5 * ms_per_day);
                        task "busy" "u" P1 TODAY (6 * ms_per_day)])
    by solve_wf.
  split; [exact W|]. split; [reflexivity|].
  exact (proj1 (archiveOldTasks_keeps_counts DEFAULT_WIP_LIMITS
                  (200 * ms_per_day) _ "u" P1 W)).
Defined.

(** X14: a task in [DONE] goes through both scheduled jobs with all its
    data, [completedOn] included: neither the triage nor the archiver
    writes it. *)

Theorem done_tasks_untouched (limits : WipLimits) (now : Z) (db : Store)
  (d : QueryDocumentSnapshot) :
  store_wf db -> ids_name_no_other db -> In d db -> status (data d) = DONE ->
  get (dailyTriage limits db) (ref d) = Some (data d)
  /\ get (archiveOldTasks now db) (ref d) = Some (data d).
Proof.
  intros Hwf Hid Hd Hs. split.
  - apply dailyTriage_get_kept; try assumption.
    + apply demoteToday_keeps; [assumption|congruence].
    + intros H. apply fifo_promoted_inv in H. destruct H as (_ & H & _).
      congruence.
  - rewrite (archiveOldTasks_wf now db Hwf). unfold archiveStale.
    rewrite (get_map_ref
               (fun d => if status_eqb (status (data d)) BACKLOG
                            && (createdOn (data d) <? cutoffDate now)%Z
                         then mkDoc (ref d)
                                (merge (data d) (status_only ARCHIVE))
                         else d)).
    2:{ intros x. now destruct (status_eqb (status (data x)) BACKLOG
                                && (createdOn (data x) <? cutoffDate now)%Z). }
    rewrite (get_In db d Hwf Hd). cbn [option_map data]. now rewrite Hs.
Qed.

Lemma done_tasks_untouched_witness :
  let fin := mkDoc "f" (mkTask None "proj" "u" "shipped" None P1 DONE 1 None
                          (Some 77%Z)) in
  let db := [fin; pageTask "a" "u" P1 TODAY 2;
             pageTask "b" "u" P1 BACKLOG 3] in
  (store_wf db /\ ids_name_no_other db)
  /\ get (dailyTriage DEFAULT_WIP_LIMITS db) "f" = Some (data fin)
  /\ get (archiveOldTasks (500 * ms_per_day) db) "f" = Some (data fin).
Proof.
  assert (W : store_wf [mkDoc "f" (mkTask None "proj" "u" "shipped" None P1
                                     DONE 1 None (Some 77%Z));
                        pageTask "a" "u" P1 TODAY 2;
                        pageTask "b" "u" P1 BACKLOG 3])
    by solve_wf.
  assert (M : ids_name_no_other
                [mkDoc "f" (mkTask None "proj" "u" "shipped" None P1
                              DONE 1 None (Some 77%Z));
                 pageTask "a" "u" P1 TODAY 2;
                 pageTask "b" "u" P1 BACKLOG 3])
    by solve_ids.
  split; [exact (conj W M)|].
  apply (done_tasks_untouched DEFAULT_WIP_LIMITS (500 * ms_per_day) _
           (mkDoc "f" (mkTask None "proj" "u" "shipped" None P1 DONE 1 None
                         (Some 77%Z))) W M).
  - now left.
  - reflexivity.
Defined.

(** ** The page: status changes and the order of the list *)

(** X15: when the page marks a task done, the page's own [completedOn]
    does not last: the update is from a status other than [DONE] to
    [DONE], so the trigger stamps [completedOn] again, and the stored
    task carries the time of the trigger. *)
Theorem mark_done_server_stamp (limits : WipLimits) (db : Store)
  (clientNow serverNow : Z) (taskId : string) (t : Task) :
  get db taskId = Some t -> status t <> DONE ->
  let db1 := updateTaskStatus db clientNow taskId DONE in
  let t1 := merge t (mkUpdate (Some DONE) (Some clientNow)) in
  get db1 taskId = Some t1
  /\ exists db2,
       run db1 (enforceWipOnUpdate limits db1 serverNow
                  (Some (mkChange taskId t t1))) = Some db2
       /\ get db2 taskId
          = Some (merge t (mkUpdate (Some DONE) (Some serverNow))).
Proof.
  intros G Hs db1 t1.
  assert (E1 : get db1 taskId = Some t1).
  { unfold db1, updateTaskStatus, update_doc. cbn [status_eqb].
    rewrite (get_exists_doc _ _ _ G).
    rewrite (get_map_ref
               (fun d => if ref d =? taskId
                         then mkDoc (ref d)
                                (merge (data d)
                                   (mkUpdate (Some DONE) (Some clientNow)))
                         else d)).
    2:{ intros d. now destruct (ref d =? taskId). }
    rewrite G. cbn [option_map ref data]. now rewrite String.eqb_refl. }
  split; [exact E1|].
  unfold enforceWipOnUpdate, admissionOnUpdate, recordCompletion.
  cbn [before after change_ref]. apply status_eqb_neq in Hs. rewrite Hs.
  replace (status t1) with DONE by reflexivity.
  cbn [status_eqb negb andb]. rewrite andb_false_r.
  cbn [app run apply_write]. unfold update_doc.
  rewrite (get_exists_doc _ _ _ E1). eexists. split; [reflexivity|].
  rewrite (get_map_ref
             (fun d => if ref d =? taskId
                       then mkDoc (ref d)
                              (merge (data d) (completedOn_only serverNow))
                       else d)).
  2:{ intros d. now destruct (ref d =? taskId). }
  rewrite E1. cbn [option_map ref data]. now rewrite String.eqb_refl.
Qed.

Lemma mark_done_server_stamp_witness :
  let db := [task "a" "u" P1 TODAY 1; task "b" "u" P2 BACKLOG 2] in
  (get db "a" = Some (data (task "a" "u" P1 TODAY 1)) /\ TODAY <> DONE)
  /\ get (updateTaskStatus db 1000 "a" DONE) "a"
     = Some (merge (data (task "a" "u" P1 TODAY 1))
               (mkUpdate (Some DONE) (Some 1000%Z)))
  /\ exists db2,
       run (updateTaskStatus db 1000 "a" DONE)
         (enforceWipOnUpdate DEFAULT_WIP_LIMITS
            (updateTaskStatus db 1000 "a" DONE) 1234
            (Some (mkChange "a" (data (task "a" "u" P1 TODAY 1))
                     (merge (data (task "a" "u" P1 TODAY 1))
                        (mkUpdate (Some DONE) (Some 1000%Z))))))
       = Some db2
       /\ get db2 "a"
          = Some (merge (data (task "a" "u" P1 TODAY 1))
                    (mkUpdate (Some DONE) (Some 1234%Z))).
Proof.
  split; [split; [reflexivity|discriminate]|].
  apply (mark_done_server_stamp DEFAULT_WIP_LIMITS
           [task "a" "u" P1 TODAY 1; task "b" "u" P2 BACKLOG 2]
           1000 1234 "a" (data (task "a" "u" P1 TODAY 1)));
    [reflexivity|discriminate].
Defined.

(** X16: the comparator of the task list is consistent, as a sort needs
    it: swapping the arguments negates the result, "not after" is
    transitive, a task compares equal to itself, and a task of a more
    urgent priority always comes first. *)
Theorem compareTasks_consistent (a b c : Task) :
  compareTasks b a = (- compareTasks a b)%Z
  /\ ((compareTasks a b <= 0)%Z -> (compareTasks b c <= 0)%Z ->
      (compareTasks a c <= 0)%Z)
  /\ compareTasks a a = 0%Z
  /\ ((priorityOrder (priority a) < priorityOrder (priority b))%Z ->
      (compareTasks a b < 0)%Z).
Proof.
  unfold compareTasks.
  destruct (priority a), (priority b), (priority c); cbn;
    destruct (dueDate a), (dueDate b), (dueDate c);
    repeat split; intros; lia.
Qed.
